(** * MSNoise, [s03compute_no_rotation.py]: the daily cross-correlation job

    A shallow embedding of [main()] of [msnoise/s03compute_no_rotation.py]
    and the properties of its window pipeline: gap and length filtering,
    windsorizing, pooling of the horizontal spectra, pair selection, the
    per-filter stage and the job loop.

    Conventions.  Python exceptions are the [Raise] results of [result];
    the [continue] statement of the window loop is the [Skip] outcome.
    Floating-point configuration values are rationals ([Q]); waveform
    samples and spectral magnitudes are real numbers ([R]).  Functions of
    ObsPy, NumPy, SciPy and matplotlib, and the functions of [msnoise.api]
    and [msnoise.move2obspy], whose code is not part of the script, are
    Section variables. *)

From Stdlib Require Import List String Ascii Bool Arith ZArith QArith Qround.
From Stdlib Require Import Lia Reals Qreals DecimalString Permutation Psatz.
From Stdlib Require DecimalPos DecimalZ.
Import ListNotations.

Close Scope Q_scope.
Open Scope nat_scope.
Open Scope string_scope.
Open Scope list_scope.

(** ** Python results *)

Inductive exn : Type :=
| ValueError
| IndexError
| ZeroDivisionError.

Inductive result (A : Type) : Type :=
| Ok (a : A)
| Raise (e : exn).

Arguments Ok {A} a.
Arguments Raise {A} e.

Definition bind {A B : Type} (r : result A) (f : A -> result B) : result B :=
  match r with
  | Ok a => f a
  | Raise e => Raise e
  end.

Notation "x <- c ;; k" := (bind c (fun x => k))
  (at level 61, c at next level, right associativity).

Notation "' p <- c ;; k" := (bind c (fun x => match x with p => k end))
  (at level 61, p pattern, c at next level, right associativity).

(** [for x in l: s = body(x, s)], stopping at the first exception. *)
Fixpoint for_each {A S : Type} (l : list A) (body : A -> S -> result S) (s : S)
  : result S :=
  match l with
  | [] => Ok s
  | x :: l' => s' <- body x s ;; for_each l' body s'
  end.

(** ** Strings and lists as Python has them *)

Module Py.

(** [s.split(sep)] for a one-character separator. *)
Fixpoint split (sep : ascii) (s : string) : list string :=
  match s with
  | EmptyString => [EmptyString]
  | String c s' =>
      if Ascii.eqb c sep then EmptyString :: split sep s'
      else match split sep s' with
           | [] => [String c EmptyString]
           | w :: ws => String c w :: ws
           end
  end.

(** [sep.join(l)] *)
Fixpoint join (sep : string) (l : list string) : string :=
  match l with
  | [] => EmptyString
  | [x] => x
  | x :: l' => x ++ sep ++ join sep l'
  end.

(** [c in s] for a character. *)
Fixpoint has_char (c : ascii) (s : string) : bool :=
  match s with
  | EmptyString => false
  | String d s' => Ascii.eqb d c || has_char c s'
  end.

(** [s[-1]]: IndexError on the empty string. *)
Fixpoint last_char (s : string) : result ascii :=
  match s with
  | EmptyString => Raise IndexError
  | String c EmptyString => Ok c
  | String _ s' => last_char s'
  end.

(** [s[0]] and [s[1]]. *)
Definition char_at (n : nat) (s : string) : result ascii :=
  match String.get n s with
  | Some c => Ok c
  | None => Raise IndexError
  end.

(** [s.replace(a, b)] for single characters. *)
Fixpoint replace (a b : ascii) (s : string) : string :=
  match s with
  | EmptyString => EmptyString
  | String c s' => String (if Ascii.eqb c a then b else c) (replace a b s')
  end.

Definition str1 (c : ascii) : string := String c EmptyString.

Section Lists.
Variable A : Type.
Variable A_eq_dec : forall x y : A, {x = y} + {x <> y}.

(** [l.remove(x)]: drops the first element equal to [x], ValueError
    when there is none. *)
Fixpoint remove (x : A) (l : list A) : result (list A) :=
  match l with
  | [] => Raise ValueError
  | y :: l' =>
      if A_eq_dec y x then Ok l'
      else l'' <- remove x l' ;; Ok (y :: l'')
  end.

(** [l.index(x)]: position of the first element equal to [x]. *)
Fixpoint index (x : A) (l : list A) : result nat :=
  match l with
  | [] => Raise ValueError
  | y :: l' =>
      if A_eq_dec y x then Ok 0
      else i <- index x l' ;; Ok (S i)
  end.

Definition mem (x : A) (l : list A) : bool :=
  if in_dec A_eq_dec x l then true else false.
End Lists.

Arguments remove {A} A_eq_dec x l.
Arguments index {A} A_eq_dec x l.
Arguments mem {A} A_eq_dec x l.

(** [np.unique] on strings: the distinct values, sorted. *)
Fixpoint insert_sorted (x : string) (l : list string) : list string :=
  match l with
  | [] => [x]
  | y :: l' => if String.leb x y then x :: l else y :: insert_sorted x l'
  end.

Definition sort (l : list string) : list string :=
  fold_right insert_sorted [] l.

Definition unique (l : list string) : list string :=
  sort (nodup string_dec l).

(** [itertools.combinations(l, 2)] *)
Fixpoint combinations2 {A : Type} (l : list A) : list (A * A) :=
  match l with
  | [] => []
  | x :: l' => map (pair x) l' ++ combinations2 l'
  end.

(** [itertools.combinations_with_replacement(l, 2)] *)
Fixpoint combinations_with_replacement2 {A : Type} (l : list A)
  : list (A * A) :=
  match l with
  | [] => []
  | x :: l' => map (pair x) l ++ combinations_with_replacement2 l'
  end.

End Py.

(** [x < y] on rationals, as a boolean. *)
Definition Qltb (x y : Q) : bool := negb (Qle_bool y x).

Lemma Qltb_lt (x y : Q) : Qltb x y = true <-> (x < y)%Q.
Proof.
  unfold Qltb. rewrite negb_true_iff.
  split; intro H.
  - apply Qnot_le_lt. intro Hle. apply Qle_bool_iff in Hle. congruence.
  - destruct (Qle_bool y x) eqn:E; [|reflexivity].
    apply Qle_bool_iff in E. exfalso. exact (Qlt_not_le _ _ H E).
Qed.

(** ** Facts on the Python helpers *)

Lemma split_no_sep (sep : ascii) (s : string) :
  Py.has_char sep s = false -> Py.split sep s = [s].
Proof.
  induction s as [|c s IH]; simpl; intro H; [reflexivity|].
  apply orb_false_iff in H. destruct H as [Hc Hs].
  rewrite Hc, (IH Hs). reflexivity.
Qed.

Lemma split_app (sep : ascii) (a b : string) :
  Py.has_char sep a = false ->
  Py.split sep (a ++ String sep b) = a :: Py.split sep b.
Proof.
  induction a as [|c a IH]; simpl; intro H.
  - rewrite Ascii.eqb_refl. reflexivity.
  - apply orb_false_iff in H. destruct H as [Hc Ha].
    rewrite Hc, (IH Ha). reflexivity.
Qed.

Lemma split_join4 (sep : ascii) (a b c d : string) :
  Py.has_char sep a = false -> Py.has_char sep b = false ->
  Py.has_char sep c = false -> Py.has_char sep d = false ->
  Py.split sep (Py.join (Py.str1 sep) [a; b; c; d]) = [a; b; c; d].
Proof.
  intros Ha Hb Hc Hd. simpl.
  rewrite !split_app by assumption.
  rewrite split_no_sep by assumption. reflexivity.
Qed.

Lemma insert_sorted_perm (x : string) (l : list string) :
  Permutation (x :: l) (Py.insert_sorted x l).
Proof.
  induction l as [|y l IH]; simpl; [apply Permutation_refl|].
  destruct (String.leb x y); [apply Permutation_refl|].
  eapply perm_trans; [apply perm_swap|]. apply perm_skip, IH.
Qed.

Lemma sort_perm (l : list string) : Permutation l (Py.sort l).
Proof.
  induction l as [|x l IH]; simpl; [apply perm_nil|].
  eapply perm_trans; [apply perm_skip, IH|]. apply insert_sorted_perm.
Qed.

Lemma unique_In (x : string) (l : list string) :
  In x (Py.unique l) <-> In x l.
Proof.
  unfold Py.unique. split; intro H.
  - apply (nodup_In string_dec).
    eapply Permutation_in; [apply Permutation_sym, sort_perm|exact H].
  - eapply Permutation_in; [apply sort_perm|].
    apply (nodup_In string_dec). exact H.
Qed.


(** What a loop that appends to a list leaves in it. *)
Lemma for_each_append (A E : Type) (g : A -> result (list E)) (l : list A) :
  forall acc r,
    for_each l (fun x acc => es <- g x ;; Ok (acc ++ es)) acc = Ok r ->
    forall y, In y r <->
              In y acc \/ exists x es, In x l /\ g x = Ok es /\ In y es.
Proof.
  induction l as [|x l IH]; intros acc r H y; simpl in H.
  - inversion H; subst. split; [intro Hy; left; exact Hy|].
    intros [Hy|(x & es & [] & _)]. exact Hy.
  - destruct (g x) as [es|e] eqn:Hg; simpl in H; [|discriminate].
    rewrite (IH (acc ++ es) r H y), in_app_iff. split.
    + intros [[Hy|Hy]|(x' & es' & Hx' & Hg' & Hy)].
      * left. exact Hy.
      * right. exists x, es. split; [left; reflexivity|split; assumption].
      * right. exists x', es'. split; [right; exact Hx'|split; assumption].
    + intros [Hy|(x' & es' & [<-|Hx'] & Hg' & Hy)].
      * left. left. exact Hy.
      * left. right. rewrite Hg in Hg'. inversion Hg'; subst. exact Hy.
      * right. exists x', es'. split; [exact Hx'|split; assumption].
Qed.


(** ** Data model *)

(** One ObsPy trace: the identification codes and sample count of its
    [stats], its start time (seconds), its sampling rate, and its samples. *)
Record trace (D : Type) : Type := mkTrace {
  network : string;
  station : string;
  location : string;
  channel : string;
  starttime : Q;
  sampling_rate : Q;
  npts : nat;
  data : D
}.

Arguments mkTrace {D}.
Arguments network {D} t.
Arguments station {D} t.
Arguments location {D} t.
Arguments channel {D} t.
Arguments starttime {D} t.
Arguments sampling_rate {D} t.
Arguments npts {D} t.
Arguments data {D} t.

(** One entry of [Stream.get_gaps]: [gap[0..3]] are the codes of the channel
    and [gap[-2]] is the time between the two segments, negative for an
    overlap. *)
Record gap : Type := mkGap {
  gap_network : string;
  gap_station : string;
  gap_location : string;
  gap_channel : string;
  gap_delta : Q
}.

(** One slice yielded by [stream.slide]: its traces after [copy().sort()]
    and what [get_gaps(min_gap=0)] reports for them. *)
Record window (D : Type) : Type := mkWindow {
  w_traces : list (trace D);
  w_gaps : list gap
}.

Arguments mkWindow {D}.
Arguments w_traces {D} w.
Arguments w_gaps {D} w.

(** The values of the [whitening] configuration: [N]one, [A]ll except for
    auto-correlation, only if [C]omponents are different. *)
Inductive whitening_policy : Type :=
| WhitenNone
| WhitenAll
| WhitenComponents.

(** The configuration read by [get_params], as far as [main] uses it. *)
Record params : Type := mkParams {
  components_to_compute : list string;
  goal_sampling_rate : Q;
  maxlag : Q;
  corr_duration : Q;
  overlap : Q;
  windsorizing : Q;
  whitening : whitening_policy;
  autocorr : bool;
  keep_all : bool;
  keep_days : bool;
  min30 : Q
}.

(** Why a window is left with [continue]: the three debug messages. *)
Inductive skip_reason : Type :=
| NoTracesWithoutGaps
| TooShort
| NoTracesLeft.

(** What the body of the window loop comes to. *)
Inductive outcome (A : Type) : Type :=
| Go (a : A)
| Skip (why : skip_reason)
| Abort (e : exn).

Arguments Go {A} a.
Arguments Skip {A} why.
Arguments Abort {A} e.

Definition is_skip {A : Type} (o : outcome A) : Prop :=
  match o with
  | Skip _ => True
  | _ => False
  end.

Definition dot : ascii := "."%char.

(** [tr.id] *)
Definition trace_id {D : Type} (tr : trace D) : string :=
  Py.join (Py.str1 dot) [network tr; station tr; location tr; channel tr].

(** The characters of SEED codes: upper-case letters and digits. *)
Definition seed_char (c : ascii) : bool :=
  let n := nat_of_ascii c in
  (Nat.leb 65 n && Nat.leb n 90) || (Nat.leb 48 n && Nat.leb n 57).

(** A SEED code, possibly empty: it holds no dot, and none of the pattern
    characters that [Stream.select], which matches without regard to case,
    gives a meaning to. *)
Fixpoint code_ok (s : string) : bool :=
  match s with
  | EmptyString => true
  | String c s' => seed_char c && code_ok s'
  end.

Lemma code_ok_no_dot (s : string) :
  code_ok s = true -> Py.has_char dot s = false.
Proof.
  induction s as [|c s IH]; simpl; intro H; [reflexivity|].
  apply andb_true_iff in H. destruct H as [Hc Hs].
  rewrite (IH Hs), orb_false_r.
  destruct (Ascii.eqb_spec c dot) as [E|_]; [|reflexivity].
  subst c. discriminate.
Qed.

Definition trace_ok {D : Type} (tr : trace D) : bool :=
  code_ok (network tr) && code_ok (station tr) && code_ok (location tr)
  && code_ok (channel tr).

Definition gap_ok (g : gap) : bool :=
  code_ok (gap_network g) && code_ok (gap_station g)
  && code_ok (gap_location g) && code_ok (gap_channel g).

(** ** GapFilter: lines 249-280 *)

Module GapFilter.

Section Filter.

Variable D : Type.
Variable D_eq_dec : forall x y : D, {x = y} + {x <> y}.

Definition Q_eq_dec (x y : Q) : {x = y} + {x <> y}.
Proof. decide equality; [apply Pos.eq_dec | apply Z.eq_dec]. Defined.

(** [Trace.__eq__] compares the statistics and the samples. *)
Definition trace_eq_dec (a b : trace D) : {a = b} + {a <> b}.
Proof.
  decide equality;
    first [apply string_dec | apply Q_eq_dec | apply Nat.eq_dec | apply D_eq_dec].
Defined.

(** Lines 249-253. *)
Definition channels_to_remove (gaps : list gap) : list string :=
  map (fun g => Py.join (Py.str1 dot)
                  [gap_network g; gap_station g; gap_location g; gap_channel g])
      (filter (fun g => Qltb 0 (gap_delta g)) gaps).

(** [tmp.select(network=, station=, location=, channel=)] on SEED codes. *)
Definition select (net sta loc chan : string) (tmp : list (trace D))
  : list (trace D) :=
  filter (fun tr => String.eqb (network tr) net && String.eqb (station tr) sta
                    && String.eqb (location tr) loc
                    && String.eqb (channel tr) chan) tmp.

(** Lines 256-262, the body of the loop over the gapped channels. *)
Definition remove_channel (chan : string) (tmp : list (trace D))
  : result (list (trace D)) :=
  match Py.split dot chan with
  | [net; sta; loc; chan'] =>
      for_each (select net sta loc chan' tmp) (Py.remove trace_eq_dec) tmp
  | _ => Raise ValueError
  end.

(** Lines 249-262. *)
Definition remove_gapped (gaps : list gap) (tmp : list (trace D))
  : result (list (trace D)) :=
  for_each (Py.unique (channels_to_remove gaps)) remove_channel tmp.

(** [np.amax] of the sample counts (of a stream that is not empty). *)
Definition amax (l : list nat) : nat := fold_right Nat.max 0 l.

(** [base <= params.maxlag * params.goal_sampling_rate * 2 + 1] *)
Definition too_short (p : params) (base : nat) : bool :=
  Qle_bool (inject_Z (Z.of_nat base))
           (maxlag p * goal_sampling_rate p * 2 + 1)%Q.

(** Lines 273-276. *)
Definition remove_shorter (base : nat) (tmp : list (trace D))
  : result (list (trace D)) :=
  for_each tmp
    (fun tr acc => if negb (Nat.eqb (npts tr) base) then Py.remove trace_eq_dec tr acc
                   else Ok acc)
    tmp.

(** Lines 249-280: the traces of the window that go on to be correlated. *)
Definition select_channels (p : params) (w : window D)
  : outcome (list (trace D)) :=
  match remove_gapped (w_gaps w) (w_traces w) with
  | Raise e => Abort e
  | Ok tmp =>
      if Nat.eqb (List.length tmp) 0 then Skip NoTracesWithoutGaps
      else
        let base := amax (map npts tmp) in
        if too_short p base then Skip TooShort
        else
          match remove_shorter base tmp with
          | Raise e => Abort e
          | Ok tmp' =>
              if Nat.eqb (List.length tmp') 0 then Skip NoTracesLeft else Go tmp'
          end
  end.

(** The channel of [tr] has an internal gap: [get_gaps] reports a gap of
    positive duration with its codes. *)
Definition gappedb (gaps : list gap) (tr : trace D) : bool :=
  existsb (fun g => Qltb 0 (gap_delta g)
                    && String.eqb (network tr) (gap_network g)
                    && String.eqb (station tr) (gap_station g)
                    && String.eqb (location tr) (gap_location g)
                    && String.eqb (channel tr) (gap_channel g)) gaps.

(** The traces of channels without an internal gap. *)
Definition survivors (w : window D) : list (trace D) :=
  filter (fun tr => negb (gappedb (w_gaps w) tr)) (w_traces w).


(** *** The removal loops are filters *)

Lemma remove_first (x : trace D) (pre post : list (trace D)) :
  (forall y, In y pre -> y <> x) ->
  Py.remove trace_eq_dec x (pre ++ x :: post) = Ok (pre ++ post).
Proof.
  induction pre as [|y pre IH]; simpl; intro Hpre.
  - destruct (trace_eq_dec x x) as [_|Hne]; [reflexivity|congruence].
  - destruct (trace_eq_dec y x) as [Heq|_].
    + exfalso. apply (Hpre y); [left; reflexivity|exact Heq].
    + rewrite IH; [reflexivity|]. intros z Hz. apply Hpre. right. exact Hz.
Qed.

Lemma remove_loop_app (bad : trace D -> bool) (l pre : list (trace D)) :
  (forall y, In y pre -> bad y = false) ->
  for_each l
    (fun tr acc => if bad tr then Py.remove trace_eq_dec tr acc else Ok acc)
    (pre ++ l)
  = Ok (pre ++ filter (fun tr => negb (bad tr)) l).
Proof.
  revert pre. induction l as [|x l IH]; simpl; intros pre Hpre; [reflexivity|].
  destruct (bad x) eqn:Hx; simpl.
  - rewrite remove_first.
    + simpl. apply IH. exact Hpre.
    + intros y Hy Heq. subst y. rewrite (Hpre x Hy) in Hx. discriminate.
  - replace (pre ++ x :: l) with ((pre ++ [x]) ++ l)
      by (rewrite <- app_assoc; reflexivity).
    rewrite IH.
    + rewrite <- app_assoc. reflexivity.
    + intros y Hy. apply in_app_or in Hy. destruct Hy as [Hy|[Hy|[]]].
      * apply Hpre. exact Hy.
      * subst y. exact Hx.
Qed.

Lemma remove_loop_filter (bad : trace D -> bool) (l : list (trace D)) :
  for_each l
    (fun tr acc => if bad tr then Py.remove trace_eq_dec tr acc else Ok acc) l
  = Ok (filter (fun tr => negb (bad tr)) l).
Proof.
  apply (remove_loop_app bad l []). intros y [].
Qed.

Lemma for_each_filter (A S : Type) (keep : A -> bool)
      (body : A -> S -> result S) (l : list A) (s : S) :
  for_each (filter keep l) body s
  = for_each l (fun x acc => if keep x then body x acc else Ok acc) s.
Proof.
  revert s. induction l as [|x l IH]; simpl; intro s; [reflexivity|].
  destruct (keep x); simpl.
  - destruct (body x s); simpl; [apply IH|reflexivity].
  - apply IH.
Qed.

(** Lines 273-276 keep exactly the traces with [base] samples. *)
Lemma remove_shorter_filter (base : nat) (tmp : list (trace D)) :
  remove_shorter base tmp
  = Ok (filter (fun tr => Nat.eqb (npts tr) base) tmp).
Proof.
  unfold remove_shorter.
  rewrite (remove_loop_filter (fun tr => negb (Nat.eqb (npts tr) base))).
  f_equal. apply filter_ext. intro tr. apply negb_involutive.
Qed.

(** The codes of one gapped channel, matched against a trace. *)
Definition same_codes (net sta loc chan : string) (tr : trace D) : bool :=
  String.eqb (network tr) net && String.eqb (station tr) sta
  && String.eqb (location tr) loc && String.eqb (channel tr) chan.

Definition matches (chan : string) (tr : trace D) : bool :=
  match Py.split dot chan with
  | [net; sta; loc; chan'] => same_codes net sta loc chan' tr
  | _ => false
  end.

Definition four_parts (chan : string) : Prop :=
  exists net sta loc chan', Py.split dot chan = [net; sta; loc; chan'].

Lemma remove_channel_filter (chan : string) (tmp : list (trace D)) :
  four_parts chan ->
  remove_channel chan tmp = Ok (filter (fun tr => negb (matches chan tr)) tmp).
Proof.
  intros (net & sta & loc & chan' & Hsplit).
  unfold remove_channel, matches. rewrite Hsplit.
  unfold select. rewrite for_each_filter.
  apply (remove_loop_filter (same_codes net sta loc chan')).
Qed.

Lemma remove_channels_filter (chans : list string) (tmp : list (trace D)) :
  Forall four_parts chans ->
  for_each chans remove_channel tmp
  = Ok (filter (fun tr => negb (existsb (fun c => matches c tr) chans)) tmp).
Proof.
  revert tmp. induction chans as [|c chans IH]; intros tmp Hall; simpl.
  - f_equal. symmetry. apply forallb_filter_id.
    apply forallb_forall. reflexivity.
  - inversion Hall as [|? ? Hc Hrest]; subst.
    rewrite (remove_channel_filter c tmp Hc). simpl.
    rewrite (IH _ Hrest). f_equal.
    induction tmp as [|tr tmp IHtmp]; simpl; [reflexivity|].
    destruct (matches c tr); simpl; [exact IHtmp|].
    destruct (existsb (fun c0 => matches c0 tr) chans); simpl;
      [exact IHtmp|f_equal; exact IHtmp].
Qed.

Lemma gap_id_four_parts (g : gap) :
  gap_ok g = true ->
  Py.split dot (Py.join (Py.str1 dot)
     [gap_network g; gap_station g; gap_location g; gap_channel g])
  = [gap_network g; gap_station g; gap_location g; gap_channel g].
Proof.
  unfold gap_ok. intro H.
  repeat (apply andb_true_iff in H; destruct H as [H ?]).
  apply split_join4; apply code_ok_no_dot; assumption.
Qed.

(** Lines 249-262 keep exactly the traces of the channels without a gap. *)
Lemma remove_gapped_filter (gaps : list gap) (tmp : list (trace D)) :
  forallb gap_ok gaps = true ->
  remove_gapped gaps tmp = Ok (filter (fun tr => negb (gappedb gaps tr)) tmp).
Proof.
  intro Hok. unfold remove_gapped.
  assert (Hgap : forall g, In g gaps -> gap_ok g = true)
    by (apply forallb_forall; exact Hok).
  rewrite remove_channels_filter.
  - f_equal. apply filter_ext. intro tr. f_equal.
    apply eq_true_iff_eq. unfold gappedb. rewrite !existsb_exists. split.
    + intros (c & Hc & Hm). apply (proj1 (unique_In _ _)) in Hc.
      unfold channels_to_remove in Hc. apply in_map_iff in Hc.
      destruct Hc as (g & Hg & Hin). apply filter_In in Hin.
      destruct Hin as [Hin Hpos]. exists g. split; [exact Hin|].
      subst c. unfold matches in Hm.
      rewrite (gap_id_four_parts g (Hgap g Hin)) in Hm.
      unfold same_codes in Hm. rewrite Hpos. simpl.
      exact Hm.
    + intros (g & Hin & Hm).
      apply andb_true_iff in Hm. destruct Hm as [Hm Hc4].
      apply andb_true_iff in Hm. destruct Hm as [Hm Hc3].
      apply andb_true_iff in Hm. destruct Hm as [Hm Hc2].
      apply andb_true_iff in Hm. destruct Hm as [Hpos Hc1].
      eexists. split.
      * apply (proj2 (unique_In _ _)). unfold channels_to_remove. apply in_map_iff.
        exists g. split; [reflexivity|]. apply filter_In. split; assumption.
      * unfold matches. rewrite (gap_id_four_parts g (Hgap g Hin)).
        unfold same_codes. rewrite Hc1, Hc2, Hc3, Hc4. reflexivity.
  - apply Forall_forall. intros c Hc. apply (proj1 (unique_In _ _)) in Hc.
    unfold channels_to_remove in Hc. apply in_map_iff in Hc.
    destruct Hc as (g & Hg & Hin). apply filter_In in Hin.
    destruct Hin as [Hin _]. subst c.
    exists (gap_network g), (gap_station g), (gap_location g), (gap_channel g).
    apply gap_id_four_parts. apply Hgap. exact Hin.
Qed.


Lemma amax_attained (l : list nat) : l <> [] -> In (amax l) l.
Proof.
  induction l as [|m l IH]; intro Hne; [congruence|]. simpl.
  destruct l as [|m' l'].
  - left. simpl. lia.
  - destruct (Nat.max_spec m (amax (m' :: l'))) as [[_ E]|[_ E]].
    + right. rewrite E. apply IH. discriminate.
    + left. symmetry. exact E.
Qed.

Lemma length_zero_nil (A : Type) (l : list A) :
  Nat.eqb (List.length l) 0 = true <-> l = [].
Proof.
  destruct l; simpl; split; intro H; try reflexivity; discriminate.
Qed.

(** The longest traces of a stream that is not empty are not all removed:
    the check of line 278 never fires. *)
Lemma longest_nonempty (tmp : list (trace D)) :
  tmp <> [] ->
  filter (fun tr => Nat.eqb (npts tr) (amax (map npts tmp))) tmp <> [].
Proof.
  intros Hne Hnil.
  assert (Hmap : map (@npts D) tmp <> []) by (destruct tmp; [congruence|discriminate]).
  apply amax_attained in Hmap. apply in_map_iff in Hmap.
  destruct Hmap as (tr & Htr & Hin).
  assert (Hf : In tr (filter (fun tr => Nat.eqb (npts tr) (amax (map npts tmp))) tmp)).
  { apply filter_In. split; [exact Hin|]. apply Nat.eqb_eq. exact Htr. }
  rewrite Hnil in Hf. exact Hf.
Qed.

(** Lines 249-280 as one case distinction on the channels without gaps. *)
Lemma select_channels_cases (p : params) (w : window D) :
  forallb gap_ok (w_gaps w) = true ->
  select_channels p w =
    if Nat.eqb (List.length (survivors w)) 0 then Skip NoTracesWithoutGaps
    else if too_short p (amax (map npts (survivors w))) then Skip TooShort
    else Go (filter (fun tr => Nat.eqb (npts tr) (amax (map npts (survivors w))))
                    (survivors w)).
Proof.
  intro Hok. unfold select_channels.
  rewrite (remove_gapped_filter _ _ Hok). fold (survivors w).
  destruct (Nat.eqb (List.length (survivors w)) 0) eqn:Hlen; [reflexivity|].
  destruct (too_short p (amax (map npts (survivors w)))); [reflexivity|].
  rewrite remove_shorter_filter.
  destruct (Nat.eqb (List.length (filter _ (survivors w))) 0) eqn:Hlen';
    [|reflexivity].
  exfalso. apply length_zero_nil in Hlen'.
  apply (longest_nonempty (survivors w)); [|exact Hlen'].
  intro Hnil. rewrite Hnil in Hlen. discriminate.
Qed.


(** The sample count the channels without gaps must agree on: the largest
    one present. *)
Definition common_count (w : window D) : nat :=
  amax (map npts (survivors w)).

(** [2 * maxlag * sampling_rate + 1], as line 268 writes it. *)
Definition lag_span (p : params) : Q :=
  (maxlag p * goal_sampling_rate p * 2 + 1)%Q.

Lemma too_short_spec (p : params) (base : nat) :
  too_short p base = true <-> ~ (lag_span p < inject_Z (Z.of_nat base))%Q.
Proof.
  unfold too_short, lag_span. rewrite Qle_bool_iff. split.
  - intros Hle Hlt. exact (Qlt_not_le _ _ Hlt Hle).
  - intro Hn. apply Qnot_lt_le. exact Hn.
Qed.

(** C2, as the code has it.  Every trace of a channel for which [get_gaps]
    reports a gap of positive duration is removed from the window, and the
    window is left with [continue] at line 265 exactly when no trace
    remains; a window with one channel left goes on. *)
Theorem gapped_channels_dropped (p : params) (w : window D) :
  forallb gap_ok (w_gaps w) = true ->
  (forall kept tr, select_channels p w = Go kept -> In tr kept ->
                   In tr (w_traces w) /\ gappedb (w_gaps w) tr = false)
  /\ (select_channels p w = Skip NoTracesWithoutGaps <-> survivors w = []).
Proof.
  intro Hok. rewrite (select_channels_cases p w Hok). split.
  - intros kept tr Hgo Hin.
    destruct (Nat.eqb (List.length (survivors w)) 0); [discriminate|].
    destruct (too_short p (amax (map npts (survivors w)))); [discriminate|].
    inversion Hgo; subst kept. apply filter_In in Hin. destruct Hin as [Hin _].
    unfold survivors in Hin. apply filter_In in Hin. destruct Hin as [Hin Hg].
    split; [exact Hin|]. apply negb_true_iff. exact Hg.
  - destruct (Nat.eqb (List.length (survivors w)) 0) eqn:Hlen.
    + apply length_zero_nil in Hlen. tauto.
    + split.
      * destruct (too_short p (amax (map npts (survivors w)))); discriminate.
      * intro Hnil. rewrite Hnil in Hlen. discriminate.
Qed.

Lemma amax_upper (l : list nat) (m : nat) : In m l -> m <= amax l.
Proof.
  induction l as [|x l IH]; simpl; [intros []|].
  intros [->|Hin]; [lia|]. specialize (IH Hin). lia.
Qed.

(** C3.  The count the channels without gaps must agree on is the largest
    one present among them: no channel has more samples, and one has as
    many.  A window is left with [continue] exactly when this count is not
    strictly greater than [2 * maxlag * sampling_rate + 1] (the count of no
    channel at all being 0, and the span not negative); otherwise the
    traces with another sample count are removed, the others go on, at
    least one of them, and nothing is raised. *)
Theorem window_length_check (p : params) (w : window D) :
  forallb gap_ok (w_gaps w) = true ->
  survivors w <> [] \/ (0 <= lag_span p)%Q ->
  (forall tr, In tr (survivors w) -> npts tr <= common_count w)
  /\ (survivors w <> [] ->
      exists tr, In tr (survivors w) /\ npts tr = common_count w)
  /\ (is_skip (select_channels p w)
      <-> ~ (lag_span p < inject_Z (Z.of_nat (common_count w)))%Q)
  /\ (forall kept, select_channels p w = Go kept ->
        kept = filter (fun tr => Nat.eqb (npts tr) (common_count w))
                      (survivors w)
        /\ kept <> []
        /\ (forall tr, In tr kept ->
              forall tr', In tr' (survivors w) -> npts tr' <= npts tr))
  /\ (forall e, select_channels p w <> Abort e).
Proof.
  intros Hok Hne.
  assert (Hupper : forall tr, In tr (survivors w) -> npts tr <= common_count w).
  { intros tr Hin. unfold common_count. apply amax_upper.
    apply in_map. exact Hin. }
  split; [exact Hupper|]. split.
  { intro Hsome. unfold common_count.
    assert (Hmap : map (@npts D) (survivors w) <> [])
      by (destruct (survivors w); [congruence|discriminate]).
    apply amax_attained in Hmap. apply in_map_iff in Hmap.
    destruct Hmap as (tr & Htr & Hin). exists tr. split; assumption. }
  rewrite (select_channels_cases p w Hok).
  destruct (Nat.eqb (List.length (survivors w)) 0) eqn:Hlen.
  { apply length_zero_nil in Hlen.
    destruct Hne as [Hne|Hspan]; [contradiction|].
    split; [|split].
    - split; [intros _|intros _; exact I].
      unfold common_count. rewrite Hlen. simpl.
      intro Hlt. exact (Qlt_not_le _ _ Hlt Hspan).
    - intros kept H. discriminate.
    - intros e H. discriminate. }
  assert (Hsome : survivors w <> []).
  { intro Hnil. rewrite Hnil in Hlen. discriminate. }
  fold (common_count w).
  destruct (too_short p (common_count w)) eqn:Hshort.
  - split; [|split].
    + split; [intros _|intros _; exact I]. apply too_short_spec. exact Hshort.
    + intros kept H. discriminate.
    + intros e H. discriminate.
  - split; [|split].
    + split; [intros []|]. intro Hn. apply too_short_spec in Hn. congruence.
    + intros kept H. inversion H; subst kept. split; [reflexivity|].
      split; [apply longest_nonempty; exact Hsome|].
      intros tr Hin tr' Hin'. apply filter_In in Hin. destruct Hin as [_ Heq].
      apply Nat.eqb_eq in Heq. rewrite Heq. apply Hupper. exact Hin'.
    + intros e H. discriminate.
Qed.

(** The traces that go on all have the same sample count, above the lag
    span, whatever [get_gaps] reported. *)
Lemma select_channels_go (p : params) (w : window D) (kept : list (trace D)) :
  select_channels p w = Go kept ->
  exists base,
    too_short p base = false
    /\ kept <> []
    /\ forall tr, In tr kept -> npts tr = base.
Proof.
  unfold select_channels.
  destruct (remove_gapped (w_gaps w) (w_traces w)) as [tmp|e]; [|discriminate].
  destruct (Nat.eqb (List.length tmp) 0); [discriminate|].
  destruct (too_short p (amax (map npts tmp))) eqn:Hshort; [discriminate|].
  rewrite remove_shorter_filter.
  destruct (Nat.eqb (List.length (filter _ tmp)) 0) eqn:Hlen; [discriminate|].
  intro H. inversion H; subst kept. exists (amax (map npts tmp)).
  split; [exact Hshort|]. split.
  - intro Hnil. rewrite Hnil in Hlen. discriminate.
  - intros tr Hin. apply filter_In in Hin. apply Nat.eqb_eq. apply Hin.
Qed.


Lemma remove_channels_nil (chans : list string) (tmp : list (trace D)) :
  for_each chans remove_channel [] = Ok tmp -> tmp = [].
Proof.
  induction chans as [|c chans IH]; simpl; intro H.
  - inversion H. reflexivity.
  - unfold remove_channel in H at 1.
    destruct (Py.split dot c) as [|net [|sta [|loc [|chan' [|x rest]]]]];
      simpl in H; try discriminate.
    apply IH. exact H.
Qed.

(** A window that goes on held a trace to begin with. *)
Lemma select_channels_nonempty (p : params) (w : window D)
      (kept : list (trace D)) :
  select_channels p w = Go kept -> w_traces w <> [].
Proof.
  unfold select_channels. intros H Hnil. rewrite Hnil in H.
  destruct (remove_gapped (w_gaps w) []) as [tmp|e] eqn:E; [|discriminate].
  apply remove_channels_nil in E. subst tmp. discriminate.
Qed.


(** X2.  Every trace that goes on to be correlated has the same sample count,
    and that count is strictly greater than [2 * maxlag * sampling_rate + 1]. *)
Theorem kept_channels_same_count (p : params) (w : window D)
        (kept : list (trace D)) :
  select_channels p w = Go kept ->
  exists base,
    (lag_span p < inject_Z (Z.of_nat base))%Q
    /\ forall tr, In tr kept -> npts tr = base.
Proof.
  intro Hgo. destruct (select_channels_go p w kept Hgo) as (base & Hs & _ & Hall).
  exists base. split; [|exact Hall].
  destruct (Qlt_le_dec (lag_span p) (inject_Z (Z.of_nat base))) as [H|H];
    [exact H|].
  exfalso. apply Qle_bool_iff in H. unfold too_short in Hs.
  unfold lag_span in H. congruence.
Qed.

End Filter.

Arguments select_channels {D} D_eq_dec p w.
Arguments remove_gapped {D} D_eq_dec gaps tmp.
Arguments remove_shorter {D} D_eq_dec base tmp.
Arguments gappedb {D} gaps tr.
Arguments survivors {D} w.
Arguments common_count {D} w.

End GapFilter.

(** ** Pair selection: lines 300-301 and 335-349 *)

Module Pairs.

(** One element of [names]: [tr.id.split(".")]. *)
Definition name : Type := list string.

Definition name_eq_dec : forall a b : name, {a = b} + {a <> b} :=
  list_eq_dec string_dec.

(** Line 301. *)
Definition names {D : Type} (tmp : list (trace D)) : list name :=
  map (fun tr => Py.split dot (trace_id tr)) tmp.

(** [n1, s1, l1, c1 = name] *)
Definition unpack4 (n : name) : result (string * string * string * string) :=
  match n with
  | [a; b; c; d] => Ok (a, b, c, d)
  | _ => Raise ValueError
  end.

(** One entry of [pair_index]: the key of the pair and the rows of its two
    channels in [data]. *)
Definition pair_entry : Type := (string * nat * nat)%type.

(** ["%s%s" % (c1[-1], c2[-1])] *)
Definition comp_of (k1 k2 : ascii) : string :=
  String k1 (String k2 EmptyString).

(** ["%s.%s_%s.%s_%s" % (n1, s1, n2, s2, comp)] *)
Definition pair_key (n1 s1 n2 s2 comp : string) : string :=
  n1 ++ "." ++ s1 ++ "_" ++ n2 ++ "." ++ s2 ++ "_" ++ comp.

(** Lines 338-341. *)
Definition iterfunc (p : params) (nms : list name) : list (name * name) :=
  if autocorr p then Py.combinations_with_replacement2 nms
  else Py.combinations2 nms.

(** Lines 343-349: what one pair adds to [pair_index]. *)
Definition entry (p : params) (nms : list name) (pr : name * name)
  : result (list pair_entry) :=
  '(n1, s1, l1, c1) <- unpack4 (fst pr) ;;
  '(n2, s2, l2, c2) <- unpack4 (snd pr) ;;
  k1 <- Py.last_char c1 ;;
  k2 <- Py.last_char c2 ;;
  if Py.mem string_dec (comp_of k1 k2) (components_to_compute p) then
    i <- Py.index name_eq_dec (fst pr) nms ;;
    j <- Py.index name_eq_dec (snd pr) nms ;;
    Ok [(pair_key n1 s1 n2 s2 (comp_of k1 k2), i, j)]
  else Ok [].

(** Lines 335-349. *)
Definition pair_index (p : params) (nms : list name) : result (list pair_entry) :=
  for_each (iterfunc p nms)
           (fun pr acc => es <- entry p nms pr ;; Ok (acc ++ es)) [].

(** The four codes of a trace. *)
Definition codes {D : Type} (tr : trace D) : name :=
  [network tr; station tr; location tr; channel tr].

(** The traces a pair selection is stated for: SEED codes without dots and
    a channel code that is not empty. *)
Definition channel_ok {D : Type} (tr : trace D) : bool :=
  trace_ok tr && negb (String.eqb (channel tr) EmptyString).


(** *** Facts on pair selection *)

Lemma for_each_collect (A E : Type) (g : A -> result (list E)) (l : list A) :
  (forall x, In x l -> exists es, g x = Ok es) ->
  forall acc,
    for_each l (fun x acc => es <- g x ;; Ok (acc ++ es)) acc
    = Ok (acc ++ flat_map (fun x => match g x with
                                    | Ok es => es
                                    | Raise _ => []
                                    end) l).
Proof.
  induction l as [|x l IH]; intros Hall acc; simpl.
  - rewrite app_nil_r. reflexivity.
  - destruct (Hall x (or_introl eq_refl)) as [es Hes]. rewrite Hes. simpl.
    rewrite IH by (intros y Hy; apply Hall; right; exact Hy).
    rewrite app_assoc. reflexivity.
Qed.

Lemma combinations2_In (A : Type) (l : list A) (a b : A) :
  In (a, b) (Py.combinations2 l) <->
  exists i j, i < j /\ nth_error l i = Some a /\ nth_error l j = Some b.
Proof.
  induction l as [|x l IH]; simpl.
  - split; [intros []|]. intros (i & j & _ & Hi & _). destruct i; discriminate.
  - rewrite in_app_iff, in_map_iff, IH. split.
    + intros [(y & Hy & Hin)|(i & j & Hlt & Hi & Hj)].
      * inversion Hy; subst. apply In_nth_error in Hin. destruct Hin as [j Hj].
        exists 0, (S j). repeat split; [lia|exact Hj].
      * exists (S i), (S j). repeat split; [lia|exact Hi|exact Hj].
    + intros (i & j & Hlt & Hi & Hj). destruct j as [|j]; [lia|].
      destruct i as [|i]; simpl in Hi, Hj.
      * left. inversion Hi; subst. exists b. split; [reflexivity|].
        eapply nth_error_In. exact Hj.
      * right. exists i, j. repeat split; [lia|exact Hi|exact Hj].
Qed.

Lemma combinations_with_replacement2_In (A : Type) (l : list A) (a b : A) :
  In (a, b) (Py.combinations_with_replacement2 l) <->
  exists i j, i <= j /\ nth_error l i = Some a /\ nth_error l j = Some b.
Proof.
  induction l as [|x l IH].
  - simpl. split; [intros []|]. intros (i & j & _ & Hi & _).
    destruct i; discriminate.
  - cbn [Py.combinations_with_replacement2].
    rewrite in_app_iff, in_map_iff, IH. split.
    + intros [(y & Hy & Hin)|(i & j & Hlt & Hi & Hj)].
      * inversion Hy; subst. apply In_nth_error in Hin. destruct Hin as [j Hj].
        exists 0, j. repeat split; [lia|exact Hj].
      * exists (S i), (S j). repeat split; [lia|exact Hi|exact Hj].
    + intros (i & j & Hlt & Hi & Hj).
      destruct i as [|i]; simpl in Hi.
      * left. inversion Hi; subst. exists b. split; [reflexivity|].
        eapply nth_error_In. exact Hj.
      * destruct j as [|j]; [lia|]. simpl in Hj.
        right. exists i, j. repeat split; [lia|exact Hi|exact Hj].
Qed.

Lemma index_nodup (l : list name) (i : nat) (a : name) :
  NoDup l -> nth_error l i = Some a -> Py.index name_eq_dec a l = Ok i.
Proof.
  revert i. induction l as [|x l IH]; intros i Hnd Hi.
  - destruct i; discriminate.
  - inversion Hnd as [|? ? Hnotin Hnd']; subst. simpl.
    destruct i as [|i]; simpl in Hi.
    + inversion Hi; subst. destruct (name_eq_dec a a); [reflexivity|congruence].
    + destruct (name_eq_dec x a) as [->|Hne].
      * exfalso. apply Hnotin. eapply nth_error_In. exact Hi.
      * rewrite (IH i Hnd' Hi). reflexivity.
Qed.

Lemma names_codes {D : Type} (tmp : list (trace D)) :
  forallb channel_ok tmp = true -> names tmp = map codes tmp.
Proof.
  intro Hok. unfold names. apply map_ext_in. intros tr Hin.
  assert (H : channel_ok tr = true)
    by (revert tr Hin; apply forallb_forall; exact Hok).
  unfold channel_ok, trace_ok in H.
  repeat (apply andb_true_iff in H; destruct H as [H ?]).
  apply split_join4; apply code_ok_no_dot; assumption.
Qed.

Lemma last_char_nonempty (s : string) :
  s <> EmptyString -> exists k, Py.last_char s = Ok k.
Proof.
  induction s as [|c s IH]; intro Hne; [congruence|].
  destruct s as [|c' s'].
  - exists c. reflexivity.
  - destruct IH as [k Hk]; [discriminate|]. exists k. exact Hk.
Qed.

Lemma channel_ok_last {D : Type} (tr : trace D) :
  channel_ok tr = true -> exists k, Py.last_char (channel tr) = Ok k.
Proof.
  unfold channel_ok. intro H. apply andb_true_iff in H. destruct H as [_ H].
  apply negb_true_iff in H. apply last_char_nonempty.
  intro E. rewrite E in H. discriminate.
Qed.

Lemma mem_In (x : string) (l : list string) :
  Py.mem string_dec x l = true <-> In x l.
Proof.
  unfold Py.mem. destruct (in_dec string_dec x l); split; intro H;
    try assumption; try reflexivity; try discriminate; contradiction.
Qed.

(** Which positions [iterfunc] pairs. *)
Definition paired (p : params) (i j : nat) : Prop :=
  i < j \/ (autocorr p = true /\ i = j).

Lemma iterfunc_In (p : params) (l : list name) (a b : name) :
  In (a, b) (iterfunc p l) <->
  exists i j, paired p i j /\ nth_error l i = Some a /\ nth_error l j = Some b.
Proof.
  unfold iterfunc, paired. destruct (autocorr p).
  - rewrite combinations_with_replacement2_In.
    split; intros (i & j & H & Hi & Hj); exists i, j; repeat split;
      try assumption.
    + destruct (Nat.eq_dec i j); [right; split; [reflexivity|assumption]|left; lia].
    + destruct H as [H|[_ H]]; lia.
  - rewrite combinations2_In.
    split; intros (i & j & H & Hi & Hj); exists i, j; repeat split;
      try assumption.
    + left. exact H.
    + destruct H as [H|[H _]]; [exact H|discriminate].
Qed.


Lemma nth_error_codes {D : Type} (tmp : list (trace D)) (i : nat) (x : name) :
  nth_error (map codes tmp) i = Some x <->
  exists a, nth_error tmp i = Some a /\ x = codes a.
Proof.
  rewrite nth_error_map. destruct (nth_error tmp i) as [a|]; simpl; split.
  - intro H. inversion H. exists a. split; reflexivity.
  - intros (a' & Ha & ->). inversion Ha. reflexivity.
  - discriminate.
  - intros (a' & Ha & _). discriminate.
Qed.

(** What the body of the pair loop adds for the traces at rows [i], [j]. *)
Lemma entry_at {D : Type} (p : params) (tmp : list (trace D))
      (i j : nat) (a b : trace D) (ka kb : ascii) :
  NoDup (map codes tmp) ->
  nth_error tmp i = Some a -> nth_error tmp j = Some b ->
  Py.last_char (channel a) = Ok ka -> Py.last_char (channel b) = Ok kb ->
  entry p (map codes tmp) (codes a, codes b)
  = Ok (if Py.mem string_dec (comp_of ka kb) (components_to_compute p)
        then [(pair_key (network a) (station a) (network b) (station b)
                        (comp_of ka kb), i, j)]
        else []).
Proof.
  intros Hnd Hi Hj Hka Hkb. unfold entry. simpl.
  rewrite Hka, Hkb. simpl.
  destruct (Py.mem string_dec (comp_of ka kb) (components_to_compute p));
    [|reflexivity].
  rewrite (index_nodup (map codes tmp) i (codes a) Hnd)
    by (apply nth_error_codes; exists a; split; [exact Hi|reflexivity]).
  simpl.
  rewrite (index_nodup (map codes tmp) j (codes b) Hnd)
    by (apply nth_error_codes; exists b; split; [exact Hj|reflexivity]).
  reflexivity.
Qed.

(** The pairs of a window, as a predicate on an entry. *)
Definition wanted {D : Type} (p : params) (tmp : list (trace D))
           (e : pair_entry) : Prop :=
  exists a b ka kb,
    paired p (snd (fst e)) (snd e)
    /\ nth_error tmp (snd (fst e)) = Some a
    /\ nth_error tmp (snd e) = Some b
    /\ Py.last_char (channel a) = Ok ka
    /\ Py.last_char (channel b) = Ok kb
    /\ In (comp_of ka kb) (components_to_compute p)
    /\ fst (fst e) = pair_key (network a) (station a) (network b) (station b)
                              (comp_of ka kb).

Lemma pair_index_wanted {D : Type} (p : params) (tmp : list (trace D)) :
  forallb channel_ok tmp = true ->
  NoDup (map codes tmp) ->
  exists idx,
    pair_index p (names tmp) = Ok idx
    /\ forall e, In e idx <-> wanted p tmp e.
Proof.
  intros Hok Hnd. rewrite (names_codes tmp Hok). unfold pair_index.
  assert (Hlast : forall i a, nth_error tmp i = Some a ->
                              exists k, Py.last_char (channel a) = Ok k).
  { intros i a Hi. apply channel_ok_last.
    apply nth_error_In in Hi. revert a Hi. apply forallb_forall. exact Hok. }
  assert (Hentry : forall pr, In pr (iterfunc p (map codes tmp)) ->
            exists i j a b ka kb,
              paired p i j /\ nth_error tmp i = Some a
              /\ nth_error tmp j = Some b
              /\ Py.last_char (channel a) = Ok ka
              /\ Py.last_char (channel b) = Ok kb
              /\ pr = (codes a, codes b)).
  { intros [x y] Hin. apply iterfunc_In in Hin.
    destruct Hin as (i & j & Hp & Hi & Hj).
    apply nth_error_codes in Hi. destruct Hi as (a & Hi & ->).
    apply nth_error_codes in Hj. destruct Hj as (b & Hj & ->).
    destruct (Hlast i a Hi) as [ka Hka]. destruct (Hlast j b Hj) as [kb Hkb].
    exists i, j, a, b, ka, kb. repeat split; assumption. }
  rewrite for_each_collect.
  - eexists. split; [reflexivity|]. intros [[key i] j]. simpl.
    rewrite in_flat_map. unfold wanted. simpl. split.
    + intros (pr & Hin & He).
      destruct (Hentry pr Hin) as (i' & j' & a & b & ka & kb & Hp & Hi & Hj
                                   & Hka & Hkb & ->).
      rewrite (entry_at p tmp i' j' a b ka kb Hnd Hi Hj Hka Hkb) in He.
      destruct (Py.mem string_dec (comp_of ka kb) (components_to_compute p))
        eqn:Hmem; [|destruct He].
      destruct He as [He|[]]. inversion He; subst.
      exists a, b, ka, kb. repeat split; try assumption.
      apply mem_In. exact Hmem.
    + intros (a & b & ka & kb & Hp & Hi & Hj & Hka & Hkb & Hc & ->).
      exists (codes a, codes b). split.
      * apply iterfunc_In. exists i, j. repeat split; try assumption;
          apply nth_error_codes; eexists; split; try eassumption; reflexivity.
      * rewrite (entry_at p tmp i j a b ka kb Hnd Hi Hj Hka Hkb).
        apply mem_In in Hc. rewrite Hc. left. reflexivity.
  - intros pr Hin.
    destruct (Hentry pr Hin) as (i' & j' & a & b & ka & kb & Hp & Hi & Hj
                                 & Hka & Hkb & ->).
    rewrite (entry_at p tmp i' j' a b ka kb Hnd Hi Hj Hka Hkb).
    eexists. reflexivity.
Qed.


(** C6.  For a window whose channels are distinct, [pair_index] holds an
    entry for rows [i], [j] exactly when [i < j], or [i = j] with
    auto-correlation enabled, and the two component letters, in this order,
    form one of [components_to_compute]; the entry carries the key of the
    pair and the two rows. *)
Theorem pairs_exact {D : Type} (p : params) (tmp : list (trace D)) :
  forallb channel_ok tmp = true ->
  NoDup (map codes tmp) ->
  exists idx,
    pair_index p (names tmp) = Ok idx
    /\ forall key i j,
         In (key, i, j) idx <->
         exists a b ka kb,
           (i < j \/ (autocorr p = true /\ i = j))
           /\ nth_error tmp i = Some a
           /\ nth_error tmp j = Some b
           /\ Py.last_char (channel a) = Ok ka
           /\ Py.last_char (channel b) = Ok kb
           /\ In (comp_of ka kb) (components_to_compute p)
           /\ key = pair_key (network a) (station a) (network b) (station b)
                             (comp_of ka kb).
Proof.
  intros Hok Hnd. destruct (pair_index_wanted p tmp Hok Hnd) as (idx & Hidx & Hin).
  exists idx. split; [exact Hidx|]. intros key i j. rewrite (Hin (key, i, j)).
  unfold wanted, paired. simpl. reflexivity.
Qed.

(** *** The rows of a pair *)

Lemma index_found (a : name) (l : list name) (i : nat) :
  Py.index name_eq_dec a l = Ok i -> nth_error l i = Some a.
Proof.
  revert i. induction l as [|x l IH]; intros i H; simpl in H; [discriminate|].
  destruct (name_eq_dec x a) as [->|Hne].
  - inversion H; subst. reflexivity.
  - destruct (Py.index name_eq_dec a l) as [i'|e]; simpl in H; [|discriminate].
    inversion H; subst. simpl. apply IH. reflexivity.
Qed.

(** X17.  Whatever the channel names of a window (also with names that
    repeat), every entry of [pair_index] names two rows of the batch, and
    the rows hold the two names of a pair that [iterfunc] yielded. *)
Theorem pair_index_rows_in_range (p : params) (nms : list name)
        (idx : list pair_entry) (key : string) (i j : nat) :
  pair_index p nms = Ok idx ->
  In (key, i, j) idx ->
  i < List.length nms /\ j < List.length nms
  /\ exists a b, In (a, b) (iterfunc p nms)
                 /\ nth_error nms i = Some a /\ nth_error nms j = Some b.
Proof.
  unfold pair_index. intros Hidx Hin.
  apply (for_each_append _ _ (entry p nms) _ _ _ Hidx) in Hin.
  destruct Hin as [[]|(pr & es & Hpr & Hes & Hin)].
  unfold entry in Hes.
  destruct (unpack4 (fst pr)) as [[[[n1 s1] l1] c1]|e]; simpl in Hes;
    [|discriminate].
  destruct (unpack4 (snd pr)) as [[[[n2 s2] l2] c2]|e]; simpl in Hes;
    [|discriminate].
  destruct (Py.last_char c1) as [k1|e]; simpl in Hes; [|discriminate].
  destruct (Py.last_char c2) as [k2|e]; simpl in Hes; [|discriminate].
  destruct (Py.mem string_dec (comp_of k1 k2) (components_to_compute p)).
  2:{ inversion Hes; subst. destruct Hin. }
  destruct (Py.index name_eq_dec (fst pr) nms) as [i'|e] eqn:Hi; simpl in Hes;
    [|discriminate].
  destruct (Py.index name_eq_dec (snd pr) nms) as [j'|e] eqn:Hj; simpl in Hes;
    [|discriminate].
  inversion Hes; subst. destruct Hin as [Hin|[]]. inversion Hin; subst.
  apply index_found in Hi. apply index_found in Hj.
  split; [apply nth_error_Some; congruence|].
  split; [apply nth_error_Some; congruence|].
  exists (fst pr), (snd pr). split; [|split; assumption].
  destruct pr. exact Hpr.
Qed.


End Pairs.


(** ** The lag window of a pair correlation *)

Module Correlation.

(** The lags, in samples, of the correlation of two rows of [nfft] points:
    [-(nfft - 1) .. nfft - 1]. *)
Definition lag_axis (nfft : nat) : list Z :=
  map (fun k => (Z.of_nat k - Z.of_nat (nfft - 1))%Z) (seq 0 (2 * nfft - 1)).

(** Modelled from the spec: [myCorr2] of [msnoise/move2obspy.py] is not part
    of the script.  The spec has it "inverse-transform, divide by the
    product of the two channels' energies, then extract the segment of the
    result corresponding to lags in [-maxlag, +maxlag] at the working sample
    spacing"; [corr_at] is the normalised inverse transform as a function of
    the lag, and the segment keeps the lags of magnitude at most [maxlag]. *)
Definition myCorr2_segment (corr_at : Z -> R) (maxlag : Z) (nfft : nat)
  : list R :=
  map corr_at (filter (fun t => (Z.abs t <=? maxlag)%Z) (lag_axis nfft)).

Lemma filter_none {A : Type} (f : A -> bool) (l : list A) :
  (forall x, In x l -> f x = false) -> filter f l = [].
Proof.
  induction l as [|x l IH]; simpl; intro H; [reflexivity|].
  rewrite (H x (or_introl eq_refl)). apply IH. intros y Hy. apply H.
  right. exact Hy.
Qed.

Lemma filter_all {A : Type} (f : A -> bool) (l : list A) :
  (forall x, In x l -> f x = true) -> filter f l = l.
Proof.
  induction l as [|x l IH]; simpl; intro H; [reflexivity|].
  rewrite (H x (or_introl eq_refl)). f_equal. apply IH. intros y Hy. apply H.
  right. exact Hy.
Qed.

(** The segment has [2 * m + 1] lags when [m] is in the lag axis. *)
Lemma lag_window_length (m nfft : nat) :
  m <= nfft - 1 -> 0 < nfft ->
  List.length (filter (fun t => (Z.abs t <=? Z.of_nat m)%Z) (lag_axis nfft))
  = 2 * m + 1.
Proof.
  intros Hm Hn. unfold lag_axis.
  set (f := fun t => (Z.abs t <=? Z.of_nat m)%Z).
  set (g := fun k => (Z.of_nat k - Z.of_nat (nfft - 1))%Z).
  replace (2 * nfft - 1) with ((nfft - 1 - m) + ((2 * m + 1) + (nfft - 1 - m)))
    by lia.
  rewrite (seq_app (nfft - 1 - m)), (seq_app (2 * m + 1)).
  rewrite !map_app, !filter_app, !length_app.
  rewrite (filter_none f (map g (seq 0 (nfft - 1 - m)))).
  2:{ intros t Ht. apply in_map_iff in Ht. destruct Ht as (k & <- & Hk).
      apply in_seq in Hk. apply Z.leb_gt. unfold g. lia. }
  rewrite filter_all.
  2:{ intros t Ht. apply in_map_iff in Ht. destruct Ht as (k & <- & Hk).
      apply in_seq in Hk. apply Z.leb_le. unfold g. lia. }
  rewrite filter_none.
  2:{ intros t Ht. apply in_map_iff in Ht. destruct Ht as (k & <- & Hk).
      apply in_seq in Hk. apply Z.leb_gt. unfold g. lia. }
  rewrite length_map, length_seq. simpl List.length. lia.
Qed.

(** [np.ceil(params.maxlag / dt)], with [dt = 1. / params.goal_sampling_rate],
    is a lag of the window when the window passes the check of line 268. *)
Lemma lag_samples_bounds (p : params) (base : nat) :
  (0 <= maxlag p)%Q -> (0 < goal_sampling_rate p)%Q ->
  GapFilter.too_short p base = false ->
  (0 <= Qceiling (maxlag p / (1 / goal_sampling_rate p))
   <= Z.of_nat base - 1)%Z.
Proof.
  intros Hlag Hsr Hshort.
  assert (E : (maxlag p / (1 / goal_sampling_rate p)
               == maxlag p * goal_sampling_rate p)%Q).
  { field. intro H. rewrite H in Hsr. exact (Qlt_irrefl _ Hsr). }
  rewrite (Qceiling_comp _ _ E).
  assert (Hprod : (0 <= maxlag p * goal_sampling_rate p)%Q).
  { apply Qmult_le_0_compat; [exact Hlag|apply Qlt_le_weak; exact Hsr]. }
  assert (Hlt : (GapFilter.lag_span p < inject_Z (Z.of_nat base))%Q).
  { destruct (Qlt_le_dec (GapFilter.lag_span p) (inject_Z (Z.of_nat base)))
      as [H|H]; [exact H|].
    apply Qle_bool_iff in H. unfold GapFilter.too_short in Hshort.
    unfold GapFilter.lag_span in H. congruence. }
  unfold GapFilter.lag_span in Hlt. split.
  - change 0%Z with (Qceiling (inject_Z 0)) at 1. apply Qceiling_resp_le.
    exact Hprod.
  - rewrite <- (Qceiling_Z (Z.of_nat base - 1)). apply Qceiling_resp_le.
    unfold Zminus. rewrite inject_Z_plus.
    change (inject_Z (- (1))%Z) with (-1 # 1)%Q.
    set (x := (maxlag p * goal_sampling_rate p)%Q) in *.
    set (b := inject_Z (Z.of_nat base)) in *. clearbody x b. lra.
Qed.

(** The segment of [myCorr2] has [2 * m + 1] values when the lag [m] is not
    negative and below the transform size. *)
Lemma segment_length (corr_at : Z -> R) (m : Z) (nfft : nat) :
  (0 <= m <= Z.of_nat nfft - 1)%Z ->
  Z.of_nat (List.length (myCorr2_segment corr_at m nfft)) = (2 * m + 1)%Z.
Proof.
  intros [H0 H1]. unfold myCorr2_segment. rewrite length_map.
  rewrite <- (Z2Nat.id m) by exact H0.
  rewrite lag_window_length; lia.
Qed.

End Correlation.

(** ** AmplitudeNormalizer: lines 285-293 *)

Module Normalizer.

Local Open Scope R_scope.

(** [np.sign] *)
Definition sign (x : R) : R :=
  if Rlt_dec 0 x then 1 else if Rlt_dec x 0 then -1 else 0.

(** [np.clip(x, lo, hi)], that is [minimum(maximum(x, lo), hi)]. *)
Definition clip (lo hi x : R) : R := Rmin (Rmax x lo) hi.

Fixpoint sum (l : list R) : R :=
  match l with
  | [] => 0
  | x :: l' => x + sum l'
  end.

(** [a.mean()] *)
Definition mean (l : list R) : R := sum l / INR (List.length l).

(** [a.std()]: the root of the mean squared deviation from the mean. *)
Definition std (l : list R) : R :=
  sqrt (mean (map (fun x => Rsqr (Rabs (x - mean l))) l)).


Definition Rleb (x y : R) : bool := if Rle_dec x y then true else false.

Section Windsorize.

(** [scipy.stats.scoreatpercentile(a, per)] *)
Variable scoreatpercentile : list R -> R -> R.

(** Lines 289-291: the samples between the 1st and the 99th percentile. *)
Definition not_outliers (samples : list R) : list R :=
  let imin := scoreatpercentile samples 1 in
  let imax := scoreatpercentile samples 99 in
  filter (fun x => Rleb imin x && Rleb x imax) samples.

(** Line 292: the clipping level, which the script calls [rms]. *)
Definition clip_level (k : Q) (samples : list R) : R :=
  std (not_outliers samples) * Q2R k.

(** Lines 286-293 for the samples of one trace. *)
Definition windsorize (k : Q) (samples : list R) : list R :=
  if Qeq_bool k (-1) then map sign samples
  else if negb (Qeq_bool k 0) then
    map (clip (- clip_level k samples) (clip_level k samples)) samples
  else samples.

(** Lines 285-293: every trace of the window, in place. *)
Definition windsorize_all (k : Q) (tmp : list (trace (list R)))
  : list (trace (list R)) :=
  map (fun tr => mkTrace (network tr) (station tr) (location tr) (channel tr)
                         (starttime tr) (sampling_rate tr) (npts tr)
                         (windsorize k (data tr)))
      tmp.

(** *** Facts on the normalisation *)





Lemma std_nonneg (l : list R) : 0 <= std l.
Proof. unfold std. apply sqrt_pos. Qed.


Lemma Q2R_pos (k : Q) : (0 < k)%Q -> 0 < Q2R k.
Proof.
  intro H. apply Qlt_Rlt in H. replace (Q2R 0) with 0 in H; [exact H|].
  unfold Q2R. simpl. lra.
Qed.


(** *** The quantities the normalisation is stated with *)

(** These are written with the sums of the library, apart from the
    definitions above that follow the script. *)















Lemma not_minus_one (k : Q) : ~ (k == -1)%Q -> Qeq_bool k (-1) = false.
Proof.
  intro H. destruct (Qeq_bool k (-1)) eqn:E; [|reflexivity].
  apply Qeq_bool_iff in E. contradiction.
Qed.

Lemma not_zero (k : Q) : ~ (k == 0)%Q -> Qeq_bool k 0 = false.
Proof.
  intro H. destruct (Qeq_bool k 0) eqn:E; [|reflexivity].
  apply Qeq_bool_iff in E. contradiction.
Qed.

(** X15.  A negative [windsorizing] other than -1 does not clip but
    flattens: [np.clip] is handed a lower bound above the upper one, and
    every sample of the trace becomes [windsorizing] times the standard
    deviation, a value that is not positive. *)
Theorem negative_windsorizing_flattens (k : Q) (samples : list R) :
  (k < 0)%Q -> ~ (k == -1)%Q -> not_outliers samples <> [] ->
  windsorize k samples = map (fun _ => clip_level k samples) samples
  /\ clip_level k samples <= 0.
Proof.
  intros Hk Hm _.
  assert (Hneg : Q2R k < 0).
  { apply Qlt_Rlt in Hk. replace (Q2R 0) with 0 in Hk; [exact Hk|].
    unfold Q2R. simpl. lra. }
  assert (Hlevel : clip_level k samples <= 0).
  { unfold clip_level. pose proof (std_nonneg (not_outliers samples)) as Hstd.
    replace 0 with (std (not_outliers samples) * 0) by ring.
    apply Rmult_le_compat_l; lra. }
  split; [|exact Hlevel].
  unfold windsorize. rewrite (not_minus_one k Hm).
  rewrite not_zero by (intro E; rewrite E in Hk; discriminate).
  simpl. apply map_ext. intro x. unfold clip, Rmin, Rmax.
  destruct (Rle_dec x (- clip_level k samples));
    destruct (Rle_dec _ (clip_level k samples)); lra.
Qed.

(** X16.  For a positive [windsorizing] the clipping works sample by sample
    and keeps the sign: a sample whose magnitude is within the level is
    unchanged, any other becomes the level with the sign of the sample. *)
Theorem windsorizing_keeps_inliers (k : Q) (samples : list R) (i : nat)
        (x : R) :
  (0 < k)%Q -> not_outliers samples <> [] ->
  nth_error samples i = Some x ->
  nth_error (windsorize k samples) i
  = Some (if Rle_dec (Rabs x) (clip_level k samples) then x
          else sign x * clip_level k samples).
Proof.
  intros Hk _ Hx.
  assert (Hlevel : 0 <= clip_level k samples).
  { unfold clip_level. apply Rmult_le_pos; [apply std_nonneg|].
    apply Rlt_le, Q2R_pos. exact Hk. }
  unfold windsorize.
  rewrite not_minus_one by (intro E; rewrite E in Hk; discriminate).
  rewrite not_zero by (intro E; rewrite E in Hk; discriminate).
  simpl. rewrite nth_error_map, Hx. simpl. f_equal.
  set (L := clip_level k samples) in *. clearbody L.
  unfold clip, Rmin, Rmax, sign, Rabs.
  destruct (Rcase_abs x); destruct (Rle_dec x (- L));
    repeat match goal with
           | |- context [Rle_dec ?a ?b] => destruct (Rle_dec a b)
           | |- context [Rlt_dec ?a ?b] => destruct (Rlt_dec a b)
           end; lra.
Qed.


End Windsorize.

End Normalizer.

(** ** Python dictionaries: association lists in insertion order *)

Module Dict.

Section Dict.

Variables K V : Type.
Variable K_eq_dec : forall x y : K, {x = y} + {x <> y}.

(** [d.get(k)] *)
Fixpoint lookup (k : K) (d : list (K * V)) : option V :=
  match d with
  | [] => None
  | (k', v) :: d' => if K_eq_dec k' k then Some v else lookup k d'
  end.

(** [d[k] = v]: a known key keeps its place, a new one goes last. *)
Fixpoint store (k : K) (v : V) (d : list (K * V)) : list (K * V) :=
  match d with
  | [] => [(k, v)]
  | (k', v') :: d' =>
      if K_eq_dec k' k then (k', v) :: d' else (k', v') :: store k v d'
  end.

Lemma lookup_store_eq (k : K) (v : V) (d : list (K * V)) :
  lookup k (store k v d) = Some v.
Proof.
  induction d as [|[k' v'] d IH]; simpl.
  - destruct (K_eq_dec k k); [reflexivity|congruence].
  - destruct (K_eq_dec k' k) as [E|E]; simpl.
    + destruct (K_eq_dec k' k); [reflexivity|congruence].
    + destruct (K_eq_dec k' k); [congruence|exact IH].
Qed.

Lemma lookup_store_neq (k k0 : K) (v : V) (d : list (K * V)) :
  k <> k0 -> lookup k0 (store k v d) = lookup k0 d.
Proof.
  intro Hne. induction d as [|[k' v'] d IH]; simpl.
  - destruct (K_eq_dec k k0); [congruence|reflexivity].
  - destruct (K_eq_dec k' k) as [E|E]; simpl.
    + subst k'. destruct (K_eq_dec k k0); [congruence|reflexivity].
    + destruct (K_eq_dec k' k0); [reflexivity|exact IH].
Qed.

Lemma store_keys (k k0 : K) (v : V) (d : list (K * V)) :
  In k0 (map fst (store k v d)) <-> k0 = k \/ In k0 (map fst d).
Proof.
  induction d as [|[k' v'] d IH]; simpl.
  - intuition congruence.
  - destruct (K_eq_dec k' k) as [E|E]; simpl.
    + subst k'. intuition congruence.
    + rewrite IH. intuition congruence.
Qed.

Lemma store_nodup (k : K) (v : V) (d : list (K * V)) :
  NoDup (map fst d) -> NoDup (map fst (store k v d)).
Proof.
  induction d as [|[k' v'] d IH]; simpl; intro Hnd.
  - constructor; [intros []|constructor].
  - inversion Hnd as [|? ? Hnotin Hnd']; subst.
    destruct (K_eq_dec k' k) as [E|E]; simpl.
    + constructor; assumption.
    + constructor; [|apply IH; exact Hnd'].
      intro Hin. apply store_keys in Hin. destruct Hin as [Hin|Hin];
        [congruence|contradiction].
Qed.

Lemma lookup_In (k : K) (v : V) (d : list (K * V)) :
  NoDup (map fst d) -> In (k, v) d -> lookup k d = Some v.
Proof.
  induction d as [|[k' v'] d IH]; simpl; intros Hnd Hin; [contradiction|].
  inversion Hnd as [|? ? Hnotin Hnd']; subst.
  destruct Hin as [Hin|Hin].
  - inversion Hin; subst. destruct (K_eq_dec k k); [reflexivity|congruence].
  - destruct (K_eq_dec k' k) as [E|E].
    + subst k'. exfalso. apply Hnotin. apply in_map_iff.
      exists (k, v). split; [reflexivity|exact Hin].
    + apply IH; assumption.
Qed.

Lemma In_lookup (k : K) (v : V) (d : list (K * V)) :
  lookup k d = Some v -> In (k, v) d.
Proof.
  induction d as [|[k' v'] d IH]; simpl; intro H; [discriminate|].
  destruct (K_eq_dec k' k) as [E|E].
  - inversion H; subst. left. reflexivity.
  - right. apply IH. exact H.
Qed.

End Dict.

Arguments lookup {K V} K_eq_dec k d.
Arguments store {K V} K_eq_dec k v d.

End Dict.

(** ** Pooling of the horizontal spectra: lines 303-329 *)

Module Pooling.

Local Open Scope R_scope.

(** [channel_index]: per station, the row of each component letter. *)
Definition channel_index : Type := list (string * list (ascii * nat)).

(** ["%s.%s" % (n1, s1)] *)
Definition netsta (n1 s1 : string) : string := n1 ++ "." ++ s1.

(** [enumerate(l)] *)
Definition enumerate_from {A : Type} (start : nat) (l : list A)
  : list (nat * A) :=
  combine (seq start (List.length l)) l.

(** Lines 307-311, the indexing part of the loop body. *)
Definition index_channel (i_name : nat * Pairs.name) (ci : channel_index)
  : result channel_index :=
  '(n1, s1, l1, c1) <- Pairs.unpack4 (snd i_name) ;;
  k <- Py.last_char c1 ;;
  let inner := match Dict.lookup string_dec (netsta n1 s1) ci with
               | Some d => d
               | None => []
               end in
  Ok (Dict.store string_dec (netsta n1 s1)
                 (Dict.store ascii_dec k (fst i_name) inner) ci).

(** Lines 304-311. *)
Definition build_index (nms : list Pairs.name) : result channel_index :=
  for_each (enumerate_from 0 nms) index_channel [].

(** [psds[[i_e, i_n]].mean(axis=0)] *)
Definition mean_rows (a b : list R) : list R :=
  map (fun ab => (fst ab + snd ab) / 2) (combine a b).

(** [psds[i] = row] *)
Fixpoint set_row (i : nat) (row : list R) (psds : list (list R))
  : list (list R) :=
  match psds, i with
  | [], _ => []
  | _ :: rest, O => row :: rest
  | r :: rest, S i' => r :: set_row i' row rest
  end.

Definition letter_E : ascii := "E"%char.
Definition letter_N : ascii := "N"%char.

(** Lines 321-328, for the components of one station. *)
Definition pool_station (comps : list (ascii * nat)) (psds : list (list R))
  : list (list R) :=
  match Dict.lookup ascii_dec letter_E comps,
        Dict.lookup ascii_dec letter_N comps with
  | Some i_e, Some i_n =>
      let mm := mean_rows (nth i_e psds []) (nth i_n psds []) in
      set_row i_n mm (set_row i_e mm psds)
  | _, _ => psds
  end.

(** Lines 320-328. *)
Definition pool (ci : channel_index) (psds : list (list R)) : list (list R) :=
  fold_left (fun ps chan => pool_station (snd chan) ps) ci psds.

(** The row that [channel_index] holds for a station and a letter. *)
Definition slot (ci : channel_index) (ns : string) (k : ascii) : option nat :=
  match Dict.lookup string_dec ns ci with
  | Some comps => Dict.lookup ascii_dec k comps
  | None => None
  end.

(** The station and the component letter a name is indexed under. *)
Definition key_of (nm : Pairs.name) : result (string * ascii) :=
  '(n1, s1, l1, c1) <- Pairs.unpack4 nm ;;
  k <- Py.last_char c1 ;;
  Ok (netsta n1 s1, k).

(** The same for a trace with SEED codes. *)
Definition station_component {D : Type} (tr : trace D) : result (string * ascii) :=
  k <- Py.last_char (channel tr) ;;
  Ok (netsta (network tr) (station tr), k).

(** *** Facts on the index *)

Lemma index_channel_slot (i : nat) (nm : Pairs.name) (ci ci' : channel_index) :
  index_channel (i, nm) ci = Ok ci' ->
  exists ns0 k0,
    key_of nm = Ok (ns0, k0)
    /\ (NoDup (map fst ci) -> NoDup (map fst ci'))
    /\ slot ci' ns0 k0 = Some i
    /\ forall ns k, (ns, k) <> (ns0, k0) -> slot ci' ns k = slot ci ns k.
Proof.
  unfold index_channel, key_of. simpl.
  destruct (Pairs.unpack4 nm) as [[[[n1 s1] l1] c1]|e]; simpl; [|discriminate].
  destruct (Py.last_char c1) as [k0|e]; simpl; [|discriminate].
  intro H. inversion H; subst; clear H.
  exists (netsta n1 s1), k0. split; [reflexivity|]. split; [|split].
  - apply Dict.store_nodup.
  - unfold slot. rewrite Dict.lookup_store_eq. apply Dict.lookup_store_eq.
  - intros ns k Hne. unfold slot.
    destruct (string_dec (netsta n1 s1) ns) as [E|E].
    + subst ns. rewrite Dict.lookup_store_eq.
      assert (Hk : k0 <> k) by congruence.
      rewrite (Dict.lookup_store_neq _ _ ascii_dec k0 k _ _ Hk).
      destruct (Dict.lookup string_dec (netsta n1 s1) ci); reflexivity.
    + rewrite (Dict.lookup_store_neq _ _ string_dec _ ns _ _ E). reflexivity.
Qed.


Lemma index_channel_ok (i : nat) (nm : Pairs.name) (ci : channel_index)
      (key : string * ascii) :
  key_of nm = Ok key -> exists ci', index_channel (i, nm) ci = Ok ci'.
Proof.
  unfold index_channel, key_of. simpl.
  destruct (Pairs.unpack4 nm) as [[[[n1 s1] l1] c1]|e]; simpl; [|discriminate].
  destruct (Py.last_char c1) as [k0|e]; simpl; [|discriminate].
  intros _. eexists. reflexivity.
Qed.

Lemma build_ok (sfx : list Pairs.name) (t : nat) (ci : channel_index) :
  (forall nm, In nm sfx -> exists key, key_of nm = Ok key) ->
  exists ci', for_each (enumerate_from t sfx) index_channel ci = Ok ci'.
Proof.
  revert t ci. induction sfx as [|nm sfx IH]; intros t ci Hall.
  - exists ci. reflexivity.
  - destruct (Hall nm (or_introl eq_refl)) as [key Hkey].
    destruct (index_channel_ok t nm ci key Hkey) as [ci1 H1].
    destruct (IH (S t) ci1) as [ci' H'].
    { intros nm' Hin. apply Hall. right. exact Hin. }
    exists ci'. unfold enumerate_from in *. simpl. rewrite H1. simpl. exact H'.
Qed.

(** What the index holds after the names [sfx], numbered from [t]. *)
Lemma build_from (sfx : list Pairs.name) (t : nat) (ci ci' : channel_index) :
  for_each (enumerate_from t sfx) index_channel ci = Ok ci' ->
  (NoDup (map fst ci) -> NoDup (map fst ci'))
  /\ (forall ns k i, slot ci' ns k = Some i ->
        slot ci ns k = Some i
        \/ exists j nm, i = (t + j)%nat /\ nth_error sfx j = Some nm
                        /\ key_of nm = Ok (ns, k))
  /\ (forall ns k,
        (exists i, slot ci ns k = Some i)
        \/ (exists j nm, nth_error sfx j = Some nm /\ key_of nm = Ok (ns, k)) ->
        exists i, slot ci' ns k = Some i).
Proof.
  revert t ci. induction sfx as [|nm sfx IH]; intros t ci Hrun.
  - simpl in Hrun. inversion Hrun; subst. split; [tauto|]. split.
    + intros ns k i H. left. exact H.
    + intros ns k [H|(j & nm & Hj & _)]; [exact H|]. destruct j; discriminate.
  - unfold enumerate_from in Hrun. simpl in Hrun.
    destruct (index_channel (t, nm) ci) as [ci1|e] eqn:H1; [|discriminate].
    simpl in Hrun. apply (IH (S t) ci1) in Hrun.
    destruct Hrun as (Hnd & Hsound & Hcompl).
    destruct (index_channel_slot t nm ci ci1 H1)
      as (ns0 & k0 & Hkey & Hnd1 & Hnew & Hold).
    split; [tauto|]. split.
    + intros ns k i Hi. destruct (Hsound ns k i Hi) as [H|(j & nm' & -> & Hj & Hk)].
      * destruct (string_dec ns ns0) as [En|En];
          [destruct (ascii_dec k k0) as [Ek|Ek]|].
        -- subst. rewrite Hnew in H. inversion H; subst.
           right. exists 0%nat, nm. repeat split; [lia|exact Hkey].
        -- left. rewrite <- H. symmetry. apply Hold. congruence.
        -- left. rewrite <- H. symmetry. apply Hold. congruence.
      * right. exists (S j), nm'. repeat split; [lia|exact Hj|exact Hk].
    + intros ns k H. apply Hcompl.
      destruct (string_dec ns ns0) as [En|En];
        [destruct (ascii_dec k k0) as [Ek|Ek]|].
      * subst. left. exists t. exact Hnew.
      * destruct H as [(i & Hi)|(j & nm' & Hj & Hk)].
        -- left. exists i. rewrite Hold by congruence. exact Hi.
        -- destruct j as [|j]; simpl in Hj.
           ++ inversion Hj; subst. congruence.
           ++ right. exists j, nm'. split; assumption.
      * destruct H as [(i & Hi)|(j & nm' & Hj & Hk)].
        -- left. exists i. rewrite Hold by congruence. exact Hi.
        -- destruct j as [|j]; simpl in Hj.
           ++ inversion Hj; subst. congruence.
           ++ right. exists j, nm'. split; assumption.
Qed.

(** Every row of the index is a row of a channel of that station with that
    component letter, and every station and letter present has a row. *)
Lemma build_index_slots (nms : list Pairs.name) (ci : channel_index) :
  build_index nms = Ok ci ->
  NoDup (map fst ci)
  /\ (forall ns k i, slot ci ns k = Some i ->
        exists nm, nth_error nms i = Some nm /\ key_of nm = Ok (ns, k))
  /\ (forall ns k j nm, nth_error nms j = Some nm -> key_of nm = Ok (ns, k) ->
        exists i, slot ci ns k = Some i).
Proof.
  intro H. apply build_from in H. destruct H as (Hnd & Hsound & Hcompl).
  split; [apply Hnd; constructor|]. split.
  - intros ns k i Hi. destruct (Hsound ns k i Hi) as [H|(j & nm & -> & Hj & Hk)].
    + discriminate.
    + exists nm. split; assumption.
  - intros ns k j nm Hj Hk. apply Hcompl. right. exists j, nm. split; assumption.
Qed.


(** *** Facts on the pooling loop *)



Lemma nth_set_row_neq (i j : nat) (row : list R) (psds : list (list R)) :
  i <> j -> nth j (set_row i row psds) [] = nth j psds [].
Proof.
  revert i j. induction psds as [|r psds IH]; intros [|i] [|j] H; simpl;
    try reflexivity; try congruence.
  apply IH. congruence.
Qed.







(** *** The pooling of a window *)

(** The station and letter of the trace at a row. *)
Definition owner {D : Type} (tmp : list (trace D)) (r : nat)
  : option (string * ascii) :=
  match nth_error tmp r with
  | Some tr => match station_component tr with
               | Ok key => Some key
               | Raise _ => None
               end
  | None => None
  end.

Lemma key_of_codes {D : Type} (tr : trace D) :
  key_of (Pairs.codes tr) = station_component tr.
Proof. reflexivity. Qed.


Lemma In_slot (ci : channel_index) (ns : string) (comps : list (ascii * nat))
      (k : ascii) (r : nat) :
  NoDup (map fst ci) -> In (ns, comps) ci ->
  Dict.lookup ascii_dec k comps = Some r -> slot ci ns k = Some r.
Proof.
  intros Hnd Hin Hk. unfold slot.
  rewrite (Dict.lookup_In _ _ string_dec ns comps ci Hnd Hin). exact Hk.
Qed.

Lemma window_index {D : Type} (tmp : list (trace D)) :
  forallb Pairs.channel_ok tmp = true ->
  exists ci,
    build_index (Pairs.names tmp) = Ok ci
    /\ NoDup (map fst ci)
    /\ (forall ns k r, slot ci ns k = Some r ->
          owner tmp r = Some (ns, k) /\ (r < List.length tmp)%nat)
    /\ (forall ns k j a, nth_error tmp j = Some a ->
          station_component a = Ok (ns, k) ->
          exists r, slot ci ns k = Some r).
Proof.
  intro Hok. rewrite (Pairs.names_codes tmp Hok).
  assert (Hkeys : forall a, In a tmp -> exists key, station_component a = Ok key).
  { intros a Hin. unfold station_component.
    destruct (Pairs.channel_ok_last a) as [k Hk].
    - revert a Hin. apply forallb_forall. exact Hok.
    - rewrite Hk. eexists. reflexivity. }
  destruct (build_ok (map Pairs.codes tmp) 0 []) as [ci Hci].
  { intros nm Hin. apply in_map_iff in Hin. destruct Hin as (a & <- & Hin).
    rewrite key_of_codes. apply Hkeys. exact Hin. }
  exists ci. split; [exact Hci|].
  destruct (build_index_slots _ _ Hci) as (Hnd & Hsound & Hcompl).
  split; [exact Hnd|]. split.
  - intros ns k r Hr. destruct (Hsound ns k r Hr) as (nm & Hnm & Hkey).
    apply Pairs.nth_error_codes in Hnm. destruct Hnm as (a & Ha & ->).
    rewrite key_of_codes in Hkey. split.
    + unfold owner. rewrite Ha, Hkey. reflexivity.
    + apply nth_error_Some. rewrite Ha. discriminate.
  - intros ns k j a Hj Hkey. apply (Hcompl ns k j (Pairs.codes a)).
    + apply Pairs.nth_error_codes. exists a. split; [exact Hj|reflexivity].
    + rewrite key_of_codes. exact Hkey.
Qed.






(** *** Stations with a single horizontal channel *)

(** The rows the pooling loop leaves as they were: those of a letter other
    than E and N, and those of a station whose index lacks E or N. *)
Lemma pool_kept (own : nat -> option (string * ascii)) (es : channel_index) :
  forall psds,
    NoDup (map fst es) ->
    (forall ns comps k r, In (ns, comps) es ->
        Dict.lookup ascii_dec k comps = Some r -> own r = Some (ns, k)) ->
    forall r,
      (forall ns k, own r = Some (ns, k) ->
          ~ In ns (map fst es)
          \/ (k <> letter_E /\ k <> letter_N)
          \/ (forall comps, In (ns, comps) es ->
                Dict.lookup ascii_dec letter_E comps = None
                \/ Dict.lookup ascii_dec letter_N comps = None)) ->
      nth r (pool es psds) [] = nth r psds [].
Proof.
  induction es as [|[ns0 comps0] es IH]; intros psds Hnd Hown r Hr;
    [reflexivity|].
  simpl in Hnd. inversion Hnd as [|? ? Hnotin Hnd']; subst.
  change (pool ((ns0, comps0) :: es) psds)
    with (pool es (pool_station comps0 psds)).
  rewrite IH.
  - unfold pool_station.
    destruct (Dict.lookup ascii_dec letter_E comps0) as [a|] eqn:HE;
      [|reflexivity].
    destruct (Dict.lookup ascii_dec letter_N comps0) as [b|] eqn:HN;
      [|reflexivity].
    assert (Hhead : forall k, Dict.lookup ascii_dec k comps0 = Some r ->
                              k = letter_E \/ k = letter_N -> False).
    { intros k Hk Hletter.
      pose proof (Hown ns0 comps0 k r (or_introl eq_refl) Hk) as Ho.
      destruct (Hr ns0 k Ho) as [Hout|[[H1 H2]|Hnone]].
      - apply Hout. left. reflexivity.
      - destruct Hletter; contradiction.
      - destruct (Hnone comps0 (or_introl eq_refl)); congruence. }
    rewrite !nth_set_row_neq; [reflexivity| |]; intro E;
      first [ apply (Hhead letter_N); [congruence|right; reflexivity]
            | apply (Hhead letter_E); [congruence|left; reflexivity] ].
  - exact Hnd'.
  - intros ns comps k r' Hin Hk. apply (Hown ns comps k r'); [right|]; assumption.
  - intros ns k Ho. destruct (Hr ns k Ho) as [Hout|[Hk|Hnone]].
    + left. intro Hin. apply Hout. right. exact Hin.
    + right. left. exact Hk.
    + right. right. intros comps Hin. apply Hnone. right. exact Hin.
Qed.

(** X18.  A station that has no E channel, or no N channel, in the window
    is not pooled: all its rows of [psds], the one of its single horizontal
    channel among them, are left as they were. *)
Theorem lone_horizontal_kept {D : Type} (tmp : list (trace D))
        (psds : list (list R)) (i : nat) (a : trace D) (ns : string)
        (k missing : ascii) :
  forallb Pairs.channel_ok tmp = true ->
  nth_error tmp i = Some a ->
  station_component a = Ok (ns, k) ->
  missing = letter_E \/ missing = letter_N ->
  (forall b, In b tmp -> station_component b <> Ok (ns, missing)) ->
  exists ci,
    build_index (Pairs.names tmp) = Ok ci
    /\ nth i (pool ci psds) [] = nth i psds [].
Proof.
  intros Hok Hi Ha Hmissing Hnone.
  destruct (window_index tmp Hok) as (ci & Hci & Hnd & Hsound & _).
  exists ci. split; [exact Hci|].
  apply (pool_kept (owner tmp) ci psds Hnd).
  - intros ns' comps k' r Hin Hk.
    apply (Hsound ns' k' r). apply (In_slot ci ns' comps k' r Hnd Hin Hk).
  - intros ns' k' Ho. unfold owner in Ho. rewrite Hi, Ha in Ho.
    inversion Ho; subst ns' k'. right. right. intros comps Hin.
    assert (Hlack : Dict.lookup ascii_dec missing comps = None).
    { destruct (Dict.lookup ascii_dec missing comps) as [r|] eqn:Hl;
        [|reflexivity].
      exfalso.
      destruct (Hsound ns missing r (In_slot ci ns comps missing r Hnd Hin Hl))
        as [Hown _].
      unfold owner in Hown. destruct (nth_error tmp r) as [b|] eqn:Hb;
        [|discriminate].
      apply (Hnone b); [eapply nth_error_In; exact Hb|].
      destruct (station_component b); [|discriminate]. congruence. }
    destruct Hmissing; subst missing; [left|right]; exact Hlack.
Qed.


End Pooling.

(** ** The per-filter stage and the job loop: lines 170-433 *)

(** One row of the [filters] table. *)
Record filterdb : Type := mkFilter {
  filter_ref : Z;
  filter_low : Q;
  filter_high : Q
}.

(** One row of the [jobs] table. *)
Record job : Type := mkJob {
  job_day : string;
  job_pair : string;
  job_ref : Z
}.

(** The stream [preprocess] returns: its traces, and the slices that
    [stream.slide(corr_duration, corr_duration * (1 - overlap))] yields. *)
Record stream : Type := mkStream {
  st_traces : list (trace (list R));
  st_windows : list (window (list R))
}.

(** One turn of the [while] loop as the database and the preprocessor answer
    it: [is_next_job] said yes, [get_next_job] returned [claimed], and
    [preprocess] returned [bundle]. *)
Record turn : Type := mkTurn {
  claimed : list job;
  bundle : stream
}.

(** The calls that change the database or read the waveforms. *)
Inductive event : Type :=
| GetNextJob (jobs : list job)
| Preprocess (stations comps : list string) (goal_day : string)
| UpdateJob (day pair jobtype flag : string) (ref : option Z)
| MassiveUpdateJob (jobs : list job) (flag : string)
| ExportAllcorr (ccfid : string) (corrs : list (string * list R))
| AddCorr (station1 station2 : string) (filterid : Z) (day components : string)
          (corr : list R) (ncorr : nat).

(** How [main] ends. *)
Inductive ending : Type :=
| Finished
| SysExit
| Uncaught (e : exn).

(** [allcorr]: per result id, the correlation of each window. *)
Definition allcorr_t : Type := list (string * list (string * list R)).

Module Stage.

(** Entry [k] of [scipy.fftpack.fftfreq(nfft, d=dt)], for [k < nfft // 2]:
    [k * (1.0 / (nfft * dt))]. *)
Definition freq_at (nfft : nat) (dt : Q) (k : nat) : Q :=
  (inject_Z (Z.of_nat k) * (1 / (inject_Z (Z.of_nat nfft) * dt)))%Q.

(** [scipy.fftpack.fftfreq(nfft, d=dt)[:nfft // 2]] *)
Definition freq_vec (nfft : nat) (dt : Q) : list Q :=
  map (freq_at nfft dt) (seq 0 (nfft / 2)).

(** [np.where((freq_vec >= low) & (freq_vec <= high))[0]]: the positions
    of [freq_vec] whose frequency is in the band. *)
Definition freq_sel (nfft : nat) (dt low high : Q) : list nat :=
  filter (fun k => Qle_bool low (freq_at nfft dt k)
                   && Qle_bool (freq_at nfft dt k) high)
         (seq 0 (List.length (freq_vec nfft dt))).

(** Lines 353-365: [(low, p1, p2, high)] of one filter band; [freq_sel[0]]
    raises IndexError when no frequency of the transform is in the band. *)
Definition bounds (napod : Z) (nfft : nat) (dt : Q) (f : filterdb)
  : result (Z * nat * nat * Z) :=
  match freq_sel nfft dt (filter_low f) (filter_high f) with
  | [] => Raise IndexError
  | first :: rest =>
      let last := List.last rest first in
      let low := (Z.of_nat first - napod)%Z in
      let low := if (low <=? 0)%Z then 1%Z else low in
      let high := (Z.of_nat last + napod)%Z in
      let high := if Qltb (inject_Z (Z.of_nat nfft) / 2)%Q (inject_Z high)
                  then Z.of_nat (nfft / 2) else high in
      Ok (low, first, last, high)
  end.

(** ["%02i" % filterid] *)
Definition fmt_02i (z : Z) : string :=
  let s := NilZero.string_of_int (Z.to_int z) in
  if Nat.ltb (String.length s) 2 then "0" ++ s else s.

(** [int(s)] on the strings [fmt_02i] produces. *)
Definition parse_int (s : string) : result Z :=
  match NilZero.int_of_string s with
  | Some d => Ok (Z.of_int d)
  | None => Raise ValueError
  end.

(** [key + "_%02i" % filterid + "_" + thisdate] *)
Definition ccfid_of (key : string) (filterid : Z) (thisdate : string) : string :=
  key ++ "_" ++ fmt_02i filterid ++ "_" ++ thisdate.

(** Lines 384-386. *)
Definition store_corr (ccfid thistime : string) (c : list R) (allcorr : allcorr_t)
  : allcorr_t :=
  let inner := match Dict.lookup string_dec ccfid allcorr with
               | Some d => d
               | None => []
               end in
  Dict.store string_dec ccfid (Dict.store string_dec thistime c inner) allcorr.


(** *** A band above the Nyquist frequency *)

Lemma freq_below_nyquist (k nfft : nat) (sr : Q) :
  (0 < sr)%Q -> k < nfft / 2 -> (freq_at nfft (1 / sr) k < sr / 2)%Q.
Proof.
  intros Hsr Hk. unfold freq_at.
  assert (H2 : 2 * k + 2 <= nfft).
  { pose proof (Nat.Div0.mul_div_le nfft 2). lia. }
  assert (Hn : (0 < inject_Z (Z.of_nat nfft))%Q).
  { change 0%Q with (inject_Z 0). rewrite <- Zlt_Qlt. lia. }
  assert (Hkn : (2 * inject_Z (Z.of_nat k) < inject_Z (Z.of_nat nfft))%Q).
  { change 2%Q with (inject_Z 2). rewrite <- inject_Z_mult, <- Zlt_Qlt. lia. }
  set (a := inject_Z (Z.of_nat k)) in *.
  set (n := inject_Z (Z.of_nat nfft)) in *.
  clearbody a n.
  assert (E : (a * (1 / (n * (1 / sr))) == a * sr / n)%Q).
  { field. split; intro H; rewrite H in *;
      [exact (Qlt_irrefl _ Hn)|exact (Qlt_irrefl _ Hsr)]. }
  rewrite E. apply Qlt_shift_div_r; [exact Hn|].
  assert (Hp : (0 < (n - 2 * a) * sr)%Q) by (apply Qmult_lt_0_compat; lra).
  assert (E2 : (sr / 2 == sr * (1 # 2))%Q) by reflexivity.
  rewrite E2. lra.
Qed.

(** No frequency of the transform reaches a band that starts at or above
    half the sampling rate. *)
Lemma freq_sel_above_nyquist (nfft : nat) (sr low high : Q) :
  (0 < sr)%Q -> (sr / 2 <= low)%Q -> freq_sel nfft (1 / sr) low high = [].
Proof.
  intros Hsr Hlow. unfold freq_sel. apply Correlation.filter_none.
  intros k Hk. unfold freq_vec in Hk. rewrite length_map, length_seq in Hk.
  apply in_seq in Hk. apply andb_false_iff. left.
  destruct (Qle_bool low _) eqn:E; [|reflexivity].
  apply Qle_bool_iff in E. exfalso.
  assert (Hf := freq_below_nyquist k nfft sr Hsr (proj2 Hk)).
  apply (Qlt_irrefl (sr / 2)).
  eapply Qle_lt_trans; [exact Hlow|]. eapply Qle_lt_trans; [exact E|exact Hf].
Qed.

(** *** The bounds of a band *)

Lemma filter_seq_from (f : nat -> bool) (a n x : nat) :
  In x (filter f (seq a n)) -> a <= x < a + n /\ f x = true.
Proof.
  intro H. apply filter_In in H. destruct H as [H Hf].
  apply in_seq in H. split; [lia|exact Hf].
Qed.

Lemma filter_seq_first (f : nat -> bool) (n a first : nat) (rest : list nat) :
  filter f (seq a n) = first :: rest ->
  forall x, In x rest -> first < x.
Proof.
  revert a. induction n as [|n IH]; intros a H x Hx; simpl in H.
  - discriminate.
  - destruct (f a).
    + inversion H; subst first rest.
      apply filter_seq_from in Hx. lia.
    + apply (IH (S a) H x Hx).
Qed.

Lemma last_In (A : Type) (l : list A) (d : A) : In (List.last l d) (d :: l).
Proof.
  destruct l as [|x l]; [left; reflexivity|]. right.
  assert (Hne : x :: l <> []) by discriminate.
  pose proof (app_removelast_last d Hne) as E.
  set (y := List.last (x :: l) d) in *. rewrite E.
  apply in_or_app. right. left. reflexivity.
Qed.

Lemma freq_sel_in_band (nfft : nat) (dt low high : Q) (k : nat) :
  In k (freq_sel nfft dt low high) <->
  k < nfft / 2 /\ (low <= freq_at nfft dt k)%Q /\ (freq_at nfft dt k <= high)%Q.
Proof.
  unfold freq_sel, freq_vec. rewrite length_map, length_seq.
  rewrite filter_In, in_seq, andb_true_iff, !Qle_bool_iff. split.
  - intros [H1 H2]. split; [lia|exact H2].
  - intros [H1 H2]. split; [lia|exact H2].
Qed.

(** X4.  When a band holds a frequency of the transform, the bounds handed
    to the whitening are in range: [p1 <= p2 < nfft // 2], both in the
    band, [low] is at least 1 and at most [p1] (1 when [p1] is 0), and
    [high] is between [p2] and [nfft // 2]. *)
Theorem bounds_in_range (napod : Z) (nfft : nat) (dt : Q) (f : filterdb)
        (low high : Z) (p1 p2 : nat) :
  (0 <= napod)%Z ->
  bounds napod nfft dt f = Ok (low, p1, p2, high) ->
  p1 <= p2 /\ p2 < nfft / 2
  /\ (1 <= low)%Z /\ (low <= Z.max 1 (Z.of_nat p1))%Z
  /\ (Z.of_nat p2 <= high)%Z /\ (high <= Z.of_nat (nfft / 2))%Z
  /\ (filter_low f <= freq_at nfft dt p1 <= filter_high f)%Q
  /\ (filter_low f <= freq_at nfft dt p2 <= filter_high f)%Q.
Proof.
  intros Hnapod. unfold bounds.
  destruct (freq_sel nfft dt (filter_low f) (filter_high f))
    as [|first rest] eqn:Hsel; [discriminate|].
  intro H. inversion H; subst p1 p2 low high; clear H.
  assert (Hfirst : In first (freq_sel nfft dt (filter_low f) (filter_high f)))
    by (rewrite Hsel; left; reflexivity).
  assert (Hlast : In (List.last rest first)
                     (freq_sel nfft dt (filter_low f) (filter_high f)))
    by (rewrite Hsel; apply last_In).
  apply freq_sel_in_band in Hfirst. apply freq_sel_in_band in Hlast.
  assert (Hle : first <= List.last rest first).
  { destruct (last_In nat rest first) as [E|Hin]; [rewrite <- E; lia|].
    unfold freq_sel in Hsel.
    pose proof (filter_seq_first _ _ _ _ _ Hsel _ Hin). lia. }
  split; [exact Hle|]. split; [apply Hlast|].
  split; [|split; [|split; [|split; [|split]]]].
  - destruct (Z.of_nat first - napod <=? 0)%Z eqn:E; [lia|].
    apply Z.leb_gt in E. lia.
  - destruct (Z.of_nat first - napod <=? 0)%Z eqn:E; lia.
  - destruct (Qltb _ _); [|lia].
    destruct Hlast as [Hl _]. apply Nat2Z.inj_le. apply Nat.lt_le_incl. exact Hl.
  - destruct (Qltb (inject_Z (Z.of_nat nfft) / 2)
                   (inject_Z (Z.of_nat (List.last rest first) + napod))) eqn:E;
      [apply Z.le_refl|].
    assert (Hq : (inject_Z (Z.of_nat (List.last rest first) + napod)
                  <= inject_Z (Z.of_nat nfft) / 2)%Q).
    { apply Qnot_lt_le. intro Hlt. apply Qltb_lt in Hlt. congruence. }
    assert (H2 : (2 * (Z.of_nat (List.last rest first) + napod)
                  <= Z.of_nat nfft)%Z).
    { rewrite Zle_Qle. rewrite inject_Z_mult. change (inject_Z 2) with 2%Q.
      assert (E2 : (inject_Z (Z.of_nat nfft) / 2
                    == inject_Z (Z.of_nat nfft) * (1 # 2))%Q) by reflexivity.
      rewrite E2 in Hq. lra. }
    rewrite Nat2Z.inj_div. apply Z.div_le_lower_bound; lia.
  - split; apply Hfirst.
  - split; apply Hlast.
Qed.

(** X5.  The bounds raise IndexError exactly when no frequency of the first
    half of the transform is in the band. *)
Theorem bounds_raises_iff (napod : Z) (nfft : nat) (dt : Q) (f : filterdb) :
  bounds napod nfft dt f = Raise IndexError
  <-> forall k, k < nfft / 2 ->
                ~ (filter_low f <= freq_at nfft dt k <= filter_high f)%Q.
Proof.
  unfold bounds.
  destruct (freq_sel nfft dt (filter_low f) (filter_high f))
    as [|first rest] eqn:Hsel.
  - split; [|reflexivity]. intros _ k Hk Hband.
    assert (Hin : In k (freq_sel nfft dt (filter_low f) (filter_high f))).
    { apply freq_sel_in_band. split; [exact Hk|exact Hband]. }
    rewrite Hsel in Hin. exact Hin.
  - split; [discriminate|]. intro Hnone. exfalso.
    assert (Hin : In first (freq_sel nfft dt (filter_low f) (filter_high f)))
      by (rewrite Hsel; left; reflexivity).
    apply freq_sel_in_band in Hin. destruct Hin as [Hk Hband].
    exact (Hnone first Hk Hband).
Qed.

Lemma last_default (A : Type) (l : list A) (d d' : A) :
  l <> [] -> List.last l d = List.last l d'.
Proof.
  induction l as [|x l IH]; intro Hne; [congruence|].
  destruct l as [|y l']; [reflexivity|].
  change (List.last (y :: l') d = List.last (y :: l') d').
  apply IH. discriminate.
Qed.

Lemma filter_seq_last (f : nat -> bool) (n a first : nat) (rest : list nat) :
  filter f (seq a n) = first :: rest ->
  forall x, In x (first :: rest) -> x <= List.last rest first.
Proof.
  revert a first rest. induction n as [|n IH]; intros a first rest H x Hx;
    simpl in H; [discriminate|].
  destruct (f a).
  - inversion H; subst first. clear H.
    destruct (filter f (seq (S a) n)) as [|r0 rest'] eqn:Hrest.
    + subst rest. destruct Hx as [<-|[]]. simpl. lia.
    + subst rest.
      assert (Hr0 : forall y, In y (r0 :: rest') -> y <= List.last rest' r0)
        by (apply (IH (S a) r0 rest' Hrest)).
      rewrite (last_default nat (r0 :: rest') a r0) by discriminate.
      change (List.last (r0 :: rest') r0) with
        (match rest' with [] => r0 | _ :: _ => List.last rest' r0 end).
      assert (Hlast : match rest' with
                      | [] => r0
                      | _ :: _ => List.last rest' r0
                      end = List.last rest' r0)
        by (destruct rest'; reflexivity).
      rewrite Hlast.
      destruct Hx as [<-|Hx]; [|apply Hr0; exact Hx].
      assert (Hin : In r0 (filter f (seq (S a) n)))
        by (rewrite Hrest; left; reflexivity).
      apply filter_seq_from in Hin.
      specialize (Hr0 r0 (or_introl eq_refl)). lia.
  - apply (IH (S a) first rest H x Hx).
Qed.

Lemma freq_at_monotone (nfft : nat) (dt : Q) (k k' : nat) :
  (0 < dt)%Q -> k <= k' -> (freq_at nfft dt k <= freq_at nfft dt k')%Q.
Proof.
  intros Hdt Hk. unfold freq_at. apply Qmult_le_compat_r.
  - rewrite <- Zle_Qle. lia.
  - unfold Qdiv. rewrite Qmult_1_l. apply Qinv_le_0_compat.
    apply Qmult_le_0_compat.
    + change 0%Q with (inject_Z 0). rewrite <- Zle_Qle. lia.
    + apply Qlt_le_weak. exact Hdt.
Qed.

(** X6.  With a positive sample spacing, [p1] and [p2] delimit the band: a
    frequency of the first half of the transform is in the band exactly
    when its position is between [p1] and [p2]. *)
Theorem bounds_delimit_band (napod : Z) (nfft : nat) (dt : Q) (f : filterdb)
        (low high : Z) (p1 p2 k : nat) :
  (0 < dt)%Q ->
  bounds napod nfft dt f = Ok (low, p1, p2, high) ->
  (p1 <= k <= p2
   <-> k < nfft / 2
       /\ (filter_low f <= freq_at nfft dt k <= filter_high f)%Q).
Proof.
  intros Hdt. unfold bounds.
  destruct (freq_sel nfft dt (filter_low f) (filter_high f))
    as [|first rest] eqn:Hsel; [discriminate|].
  intro H. inversion H; subst p1 p2 low high; clear H.
  assert (Hfirst : In first (freq_sel nfft dt (filter_low f) (filter_high f)))
    by (rewrite Hsel; left; reflexivity).
  assert (Hlast : In (List.last rest first)
                     (freq_sel nfft dt (filter_low f) (filter_high f)))
    by (rewrite Hsel; apply last_In).
  apply freq_sel_in_band in Hfirst. apply freq_sel_in_band in Hlast.
  destruct Hfirst as (_ & Hf1 & _). destruct Hlast as (Hl & _ & Hl2).
  split.
  - intros [H1 H2]. split; [lia|]. split.
    + eapply Qle_trans; [exact Hf1|]. apply freq_at_monotone; assumption.
    + eapply Qle_trans; [|exact Hl2]. apply freq_at_monotone; assumption.
  - intros [Hk Hband].
    assert (Hin : In k (freq_sel nfft dt (filter_low f) (filter_high f))).
    { apply freq_sel_in_band. split; [exact Hk|exact Hband]. }
    rewrite Hsel in Hin. split.
    + destruct Hin as [<-|Hin]; [lia|].
      unfold freq_sel in Hsel.
      pose proof (filter_seq_first _ _ _ _ _ Hsel _ Hin). lia.
    + unfold freq_sel in Hsel. apply (filter_seq_last _ _ _ _ _ Hsel). exact Hin.
Qed.


(** *** Result ids and back *)

Lemma has_char_app (c : ascii) (a b : string) :
  Py.has_char c (a ++ b) = Py.has_char c a || Py.has_char c b.
Proof.
  induction a as [|x a IH]; simpl; [reflexivity|].
  rewrite IH. apply orb_assoc.
Qed.

Definition underscore : ascii := "_"%char.

Lemma digits_no_underscore (u : Decimal.uint) :
  Py.has_char underscore (NilEmpty.string_of_uint u) = false.
Proof.
  induction u; simpl; try assumption; reflexivity.
Qed.

Lemma fmt_02i_no_underscore (z : Z) :
  Py.has_char underscore (fmt_02i z) = false.
Proof.
  assert (H : Py.has_char underscore (NilZero.string_of_int (Z.to_int z))
              = false).
  { destruct (Z.to_int z) as [u|u]; simpl; unfold NilZero.string_of_uint;
      destruct u; try reflexivity;
      apply (digits_no_underscore (_ u)). }
  unfold fmt_02i. destruct (Nat.ltb _ 2); [|exact H].
  simpl. exact H.
Qed.

Lemma to_int_not_nil (z : Z) :
  Z.to_int z <> Decimal.Pos Decimal.Nil /\ Z.to_int z <> Decimal.Neg Decimal.Nil.
Proof.
  destruct z as [|p|p]; simpl; split; try discriminate;
    intro H; inversion H as [E];
    exact (DecimalPos.Unsigned.to_uint_nonnil p E).
Qed.

Lemma parse_plain (z : Z) :
  parse_int (NilZero.string_of_int (Z.to_int z)) = Ok z.
Proof.
  unfold parse_int. destruct (to_int_not_nil z) as [H1 H2].
  rewrite (NilZero.isi _ H1 H2). rewrite DecimalZ.of_to. reflexivity.
Qed.

(** [int] reads back what ["%02i"] writes, padded or not. *)
Lemma parse_fmt_02i (z : Z) : parse_int (fmt_02i z) = Ok z.
Proof.
  unfold fmt_02i.
  destruct (Nat.ltb (String.length (NilZero.string_of_int (Z.to_int z))) 2)
    eqn:Hlen; [|apply parse_plain].
  pose proof (parse_plain z) as Hplain. unfold parse_int in *.
  destruct (Z.to_int z) as [u|u] eqn:Hd.
  - simpl NilZero.string_of_int in *.
    assert (Hu : u <> Decimal.Nil).
    { intro E. subst u. destruct (to_int_not_nil z) as [H1 _]. congruence. }
    assert (Hs : NilZero.string_of_uint u = NilEmpty.string_of_uint u)
      by (destruct u; try reflexivity; congruence).
    rewrite Hs in *.
    change (NilZero.int_of_string ("0" ++ NilEmpty.string_of_uint u))
      with (option_map Decimal.Pos
              (NilEmpty.uint_of_string
                 (String "0" (NilEmpty.string_of_uint u)))).
    simpl NilEmpty.uint_of_string. rewrite NilEmpty.usu. simpl.
    rewrite <- (DecimalZ.of_to z), Hd. reflexivity.
  - exfalso. simpl in Hlen.
    assert (Hu : u <> Decimal.Nil).
    { intro E. subst u. destruct (to_int_not_nil z) as [_ H2]. congruence. }
    destruct u; try congruence; simpl in Hlen; discriminate.
Qed.


Lemma append_assoc (a b c : string) :
  ((a ++ b) ++ c = a ++ (b ++ c))%string.
Proof.
  induction a as [|x a IH]; simpl; [reflexivity|]. rewrite IH. reflexivity.
Qed.

Lemma split_join5 (sep : ascii) (a b c d e : string) :
  Py.has_char sep a = false -> Py.has_char sep b = false ->
  Py.has_char sep c = false -> Py.has_char sep d = false ->
  Py.has_char sep e = false ->
  Py.split sep (a ++ String sep (b ++ String sep (c ++ String sep
                  (d ++ String sep e))))%string
  = [a; b; c; d; e].
Proof.
  intros Ha Hb Hc Hd He.
  rewrite !split_app by assumption.
  rewrite split_no_sep by assumption. reflexivity.
Qed.

Lemma code_ok_no_underscore (s : string) :
  code_ok s = true -> Py.has_char underscore s = false.
Proof.
  induction s as [|c s IH]; simpl; intro H; [reflexivity|].
  apply andb_true_iff in H. destruct H as [Hc Hs].
  rewrite (IH Hs), orb_false_r.
  destruct (Ascii.eqb_spec c underscore) as [E|_]; [|reflexivity].
  subst c. discriminate.
Qed.

Lemma replace_app (a b : ascii) (x y : string) :
  (Py.replace a b (x ++ y) = Py.replace a b x ++ Py.replace a b y)%string.
Proof.
  induction x as [|c x IH]; simpl; [reflexivity|]. rewrite IH. reflexivity.
Qed.

Lemma replace_absent (a b : ascii) (x : string) :
  Py.has_char a x = false -> Py.replace a b x = x.
Proof.
  induction x as [|c x IH]; simpl; intro H; [reflexivity|].
  apply orb_false_iff in H. destruct H as [Hc Hx].
  rewrite Hc, (IH Hx). reflexivity.
Qed.

(** The number of occurrences of a character. *)
Fixpoint count_char (c : ascii) (s : string) : nat :=
  match s with
  | EmptyString => 0
  | String d s' => (if Ascii.eqb d c then 1 else 0) + count_char c s'
  end.

(** [split] gives one part more than there are separators. *)
Lemma split_length (sep : ascii) (s : string) :
  List.length (Py.split sep s) = S (count_char sep s).
Proof.
  induction s as [|c s IH]; simpl; [reflexivity|].
  destruct (Ascii.eqb c sep); simpl.
  - rewrite IH. reflexivity.
  - destruct (Py.split sep s) as [|w ws]; simpl in *; [discriminate|exact IH].
Qed.

(** A result id whose codes, components and date hold no underscore splits
    at its underscores into the two stations, the components, the filter id
    and the date. *)
Lemma split_ccfid (n1 s1 n2 s2 date : string) (k1 k2 : ascii) (fid : Z) :
  Py.has_char underscore n1 = false -> Py.has_char underscore s1 = false ->
  Py.has_char underscore n2 = false -> Py.has_char underscore s2 = false ->
  k1 <> underscore -> k2 <> underscore ->
  Py.has_char underscore date = false ->
  Py.split underscore
    (ccfid_of (Pairs.pair_key n1 s1 n2 s2 (Pairs.comp_of k1 k2)) fid date)
  = [(n1 ++ "." ++ s1)%string; (n2 ++ "." ++ s2)%string;
     Pairs.comp_of k1 k2; fmt_02i fid; date].
Proof.
  intros Hn1 Hs1 Hn2 Hs2 Hk1 Hk2 Hdate.
  unfold ccfid_of, Pairs.pair_key.
  replace ((n1 ++ "." ++ s1 ++ "_" ++ n2 ++ "." ++ s2 ++ "_"
            ++ Pairs.comp_of k1 k2) ++ "_" ++ fmt_02i fid ++ "_" ++ date)%string
    with ((n1 ++ "." ++ s1)
          ++ String underscore
               ((n2 ++ "." ++ s2)
                ++ String underscore
                     (Pairs.comp_of k1 k2
                      ++ String underscore
                           (fmt_02i fid ++ String underscore date))))%string.
  - apply split_join5.
    + rewrite has_char_app, Hn1. simpl. exact Hs1.
    + rewrite has_char_app, Hn2. simpl. exact Hs2.
    + simpl. apply Ascii.eqb_neq in Hk1. apply Ascii.eqb_neq in Hk2.
      rewrite Hk1, Hk2. reflexivity.
    + apply fmt_02i_no_underscore.
    + exact Hdate.
  - rewrite !append_assoc. simpl. rewrite ?append_assoc. simpl. reflexivity.
Qed.


(** *** The accumulated correlations *)

(** [allcorr[ccfid][thistime]], when both keys are there. *)
Definition corr_at (allcorr : allcorr_t) (ccfid thistime : string)
  : option (list R) :=
  match Dict.lookup string_dec ccfid allcorr with
  | Some d => Dict.lookup string_dec thistime d
  | None => None
  end.

(** X7.  Lines 384-386 store a correlation under its result id and window
    time: it is read back there, a correlation stored before under the same
    id and time is replaced, and every other entry of [allcorr] is as it
    was. *)
Theorem store_corr_lookup (ccfid thistime : string) (c : list R)
        (allcorr : allcorr_t) (id t : string) :
  corr_at (store_corr ccfid thistime c allcorr) id t
  = if string_dec id ccfid
    then if string_dec t thistime then Some c else corr_at allcorr id t
    else corr_at allcorr id t.
Proof.
  unfold corr_at, store_corr.
  destruct (string_dec id ccfid) as [->|Hid].
  - rewrite Dict.lookup_store_eq.
    destruct (string_dec t thistime) as [->|Ht].
    + apply Dict.lookup_store_eq.
    + rewrite Dict.lookup_store_neq by congruence.
      destruct (Dict.lookup string_dec ccfid allcorr); reflexivity.
  - rewrite Dict.lookup_store_neq by congruence. reflexivity.
Qed.

Lemma store_In (K V : Type) (K_eq_dec : forall x y : K, {x = y} + {x <> y})
      (k : K) (v : V) (d : list (K * V)) (kv : K * V) :
  In kv (Dict.store K_eq_dec k v d) -> kv = (k, v) \/ In kv d.
Proof.
  induction d as [|[k' v'] d IH]; simpl.
  - intros [H|[]]. left. symmetry. exact H.
  - destruct (K_eq_dec k' k) as [E|E]; simpl.
    + subst k'. intros [H|H]; [left; symmetry; exact H|right; right; exact H].
    + intros [H|H]; [right; left; exact H|].
      destruct (IH H) as [H'|H']; [left; exact H'|right; right; exact H'].
Qed.

Lemma store_not_nil (K V : Type) (K_eq_dec : forall x y : K, {x = y} + {x <> y})
      (k : K) (v : V) (d : list (K * V)) :
  Dict.store K_eq_dec k v d <> [].
Proof.
  destruct d as [|[k' v'] d]; simpl; [discriminate|].
  destruct (K_eq_dec k' k); discriminate.
Qed.

(** What lines 384-386 keep true of [allcorr]: each result id is there once
    and holds at least one correlation, under distinct window times. *)
Definition well_filled (allcorr : allcorr_t) : Prop :=
  NoDup (map fst allcorr)
  /\ forall ccfid inner,
       In (ccfid, inner) allcorr -> inner <> [] /\ NoDup (map fst inner).

Lemma well_filled_empty : well_filled [].
Proof.
  split; [constructor|]. intros ccfid inner [].
Qed.

Lemma store_corr_well_filled (ccfid thistime : string) (c : list R)
      (allcorr : allcorr_t) :
  well_filled allcorr -> well_filled (store_corr ccfid thistime c allcorr).
Proof.
  intros [Hnd Hall]. unfold store_corr. split.
  - apply Dict.store_nodup. exact Hnd.
  - intros id inner Hin. apply store_In in Hin. destruct Hin as [Hin|Hin].
    + inversion Hin; subst. split; [apply store_not_nil|].
      apply Dict.store_nodup.
      destruct (Dict.lookup string_dec ccfid allcorr) as [d|] eqn:Hd.
      * apply Dict.In_lookup in Hd. apply (Hall ccfid d Hd).
      * constructor.
    + apply (Hall id inner Hin).
Qed.


End Stage.

Module Runner.

Section Run.

(** *** What the script calls and does not define *)

(** One row of the Fourier transform of the batch. *)
Variable spectrum : Type.
(** [next_fast_len] of SciPy. *)
Variable next_fast_len : nat -> nat.
(** [detrend("demean")] and [taper(0.04)] of ObsPy, on the samples of a
    trace. *)
Variable detrend_demean : list R -> list R.
Variable taper : list R -> list R.
Variable scoreatpercentile : list R -> R -> R.
(** [mlab.psd(samples, Fs=, NFFT=, detrend='mean')[0]] *)
Variable psd : list R -> Q -> nat -> list R.
(** [scipy.fftpack.fftn(data, shape=[nfft], axes=[1])] *)
Variable fftn : list (list R) -> nat -> list spectrum.
(** [whiten2(ffts, nfft, low, high, p1, p2, psds, whitening)] of
    [move2obspy]: the batch it leaves in [ffts]. *)
Variable whiten2 :
  list spectrum -> nat -> Z -> Z -> nat -> nat -> list (list R) ->
  whitening_policy -> list spectrum.
(** Line 372: the energy of each row of the batch. *)
Variable energy_of : list spectrum -> nat -> list R.
(** [myCorr2(ffts, maxlag, energy, pair_index, plot=False, nfft=nfft)] of
    [move2obspy]: the correlation of each key. *)
Variable myCorr2 :
  list spectrum -> Z -> list R -> list Pairs.pair_entry -> nat ->
  list (string * list R).
(** [strftime("%Y-%m-%d")] and [strftime("%Y-%m-%d %H:%M:%S")] of a start
    time. *)
Variable strftime_date : Q -> string.
Variable strftime_datetime : Q -> string.
(** [stack(corrs, stack_method, pws_timegate, pws_power, goal_sampling_rate)]
    of [api]. *)
Variable stack : params -> list (list R) -> list R.

Definition samples_eq_dec : forall x y : list R, {x = y} + {x <> y} :=
  list_eq_dec Req_dec_T.

Definition with_data (f : list R -> list R) (tr : trace (list R))
  : trace (list R) :=
  mkTrace (network tr) (station tr) (location tr) (channel tr)
          (starttime tr) (sampling_rate tr) (npts tr) (f (data tr)).

(** Lines 283-295: demean, windsorize, taper. *)
Definition normalize (p : params) (tmp : list (trace (list R)))
  : list (trace (list R)) :=
  map (with_data taper)
      (Normalizer.windsorize_all scoreatpercentile (windsorizing p)
         (map (with_data detrend_demean) tmp)).

(** Lines 313-318: [np.sqrt(pxx)] of every trace. *)
Definition psds_of (nfft : nat) (tmp : list (trace (list R)))
  : list (list R) :=
  map (fun tr => map sqrt (psd (data tr) (sampling_rate tr) nfft)) tmp.

(** Lines 367-370: the batch of spectra that is correlated for one band. *)
Definition whitened (p : params) (nfft : nat) (samples : list (list R))
           (psds : list (list R)) (b : Z * nat * nat * Z) : list spectrum :=
  let '(low, p1, p2, high) := b in
  whiten2 (fftn samples nfft) nfft low high p1 p2 psds (whitening p).

(** The two rows of the batch that [pair_index] names for a pair. *)
Definition pair_rows (ffts : list spectrum) (e : Pairs.pair_entry)
  : option spectrum * option spectrum :=
  (nth_error ffts (snd (fst e)), nth_error ffts (snd e)).

(** Lines 351-387, the body of the loop over the filters. *)
Definition filter_stage (p : params) (dt : Q) (nfft : nat)
           (samples psds : list (list R)) (pair_index : list Pairs.pair_entry)
           (thisdate thistime : string) (f : filterdb) (allcorr : allcorr_t)
  : result allcorr_t :=
  b <- Stage.bounds 100 nfft dt f ;;
  let ffts := whitened p nfft samples psds b in
  let energy := energy_of ffts nfft in
  let corr := myCorr2 ffts (Qceiling (maxlag p / dt)) energy pair_index nfft in
  Ok (fold_left
        (fun acc kv =>
           Stage.store_corr
             (Stage.ccfid_of (fst kv) (filter_ref f) thisdate) thistime
             (snd kv) acc)
        corr allcorr).

(** Lines 282-387 for the traces that passed the checks. *)
Definition correlate (p : params) (filters : list filterdb) (dt : Q)
           (kept : list (trace (list R))) (allcorr : allcorr_t)
  : result allcorr_t :=
  match kept with
  | [] => Raise IndexError
  | first :: _ =>
      let nfft := next_fast_len (npts first) in
      let tmp := normalize p kept in
      let samples := map (@data (list R)) tmp in
      let nms := Pairs.names tmp in
      ci <- Pooling.build_index nms ;;
      let psds := Pooling.pool ci (psds_of nfft tmp) in
      let thisdate := strftime_date (starttime first) in
      let thistime := strftime_datetime (starttime first) in
      pair_index <- Pairs.pair_index p nms ;;
      for_each filters
               (filter_stage p dt nfft samples psds pair_index thisdate thistime)
               allcorr
  end.

(** Lines 245-387, the body of the loop over the windows.  Line 245 reads
    [tmp[0]]; [slide] yields no empty slice. *)
Definition process_window (p : params) (filters : list filterdb) (dt : Q)
           (w : window (list R)) (allcorr : allcorr_t) : result allcorr_t :=
  match w_traces w with
  | [] => Raise IndexError
  | _ :: _ =>
      match GapFilter.select_channels samples_eq_dec p w with
      | Abort e => Raise e
      | Skip _ => Ok allcorr
      | Go kept => correlate p filters dt kept allcorr
      end
  end.

(** Lines 204-213: the stations of the claimed pairs. *)
Definition split_jobs (jobs : list job) : result (list string) :=
  for_each jobs
    (fun job stations =>
       match Py.split ":"%char (job_pair job) with
       | [netsta1; netsta2] => Ok (stations ++ [netsta1; netsta2])
       | _ => Raise ValueError
       end)
    [].

(** Line 214: [goal_day] after the loop over the jobs. *)
Definition goal_day_of (jobs : list job) : string :=
  job_day (List.last jobs (mkJob EmptyString EmptyString 0)).

Definition is_RT (c : ascii) : bool :=
  Ascii.eqb c "R"%char || Ascii.eqb c "T"%char.

(** Lines 224-229 for one configured component pair. *)
Definition comps_of (comp : string) : result (list string) :=
  c0 <- Py.char_at 0 comp ;;
  if is_RT c0 then Ok ["E"; "N"]
  else
    c1 <- Py.char_at 1 comp ;;
    if is_RT c1 then Ok ["E"; "N"] else Ok [Py.str1 c0; Py.str1 c1].

(** Lines 222-229. *)
Definition needed_comps (cs : list string) : result (list string) :=
  for_each cs (fun comp acc => l <- comps_of comp ;; Ok (acc ++ l)) [].

(** Lines 397-420 for one result id: the call of [add_corr], if any. *)
Definition stack_one (p : params) (goal_day : string)
           (kv : string * list (string * list R)) : list event * result unit :=
  match Py.split "_"%char (fst kv) with
  | [station1; station2; components; filterid; date] =>
      let corrs := map snd (snd kv) in
      if Nat.eqb (List.length corrs) 0 then ([], Ok tt)
      else
        let corr := stack p corrs in
        if Nat.eqb (List.length corr) 0 then ([], Ok tt)
        else
          match Stage.parse_int filterid with
          | Raise e => ([], Raise e)
          | Ok fid =>
              ([AddCorr (Py.replace dot "_"%char station1)
                        (Py.replace dot "_"%char station2)
                        fid goal_day components corr (List.length corrs)],
               Ok tt)
          end
  | _ => ([], Raise ValueError)
  end.

(** Lines 396-420. *)
Fixpoint stack_days (p : params) (goal_day : string) (allcorr : allcorr_t)
  : list event * result unit :=
  match allcorr with
  | [] => ([], Ok tt)
  | kv :: rest =>
      match stack_one p goal_day kv with
      | (evs, Raise e) => (evs, Raise e)
      | (evs, Ok _) =>
          let (evs', r) := stack_days p goal_day rest in (evs ++ evs', r)
      end
  end.

Definition mark_done (jobs : list job) : list event :=
  map (fun job => UpdateJob (job_day job) (job_pair job) "CC" "D"
                            (Some (job_ref job))) jobs.

Definition enqueue_stack (jobs : list job) : list event :=
  map (fun job => UpdateJob (job_day job) (job_pair job) "STACK" "T" None) jobs.

(** Lines 392-426: what follows the loop over the windows. *)
Definition finish_day (p : params) (jobs : list job) (allcorr : allcorr_t)
  : list event * result unit :=
  let exported :=
    if keep_all p then map (fun kv => ExportAllcorr (fst kv) (snd kv)) allcorr
    else [] in
  let (stacked, r) :=
    if keep_days p then stack_days p (goal_day_of jobs) allcorr
    else ([], Ok tt) in
  match r with
  | Raise e => (exported ++ stacked, Raise e)
  | Ok _ =>
      (exported ++ stacked ++ [MassiveUpdateJob jobs "D"] ++ enqueue_stack jobs,
       Ok tt)
  end.

(** Lines 196-432: one turn of the [while] loop. *)
Definition one_turn (p : params) (filters : list filterdb) (t : turn)
  : list event * result unit :=
  let jobs := claimed t in
  if Nat.eqb (List.length jobs) 0 then ([GetNextJob jobs], Ok tt)
  else
    match split_jobs jobs with
    | Raise e => ([GetNextJob jobs], Raise e)
    | Ok stations =>
        match needed_comps (components_to_compute p) with
        | Raise e => ([GetNextJob jobs], Raise e)
        | Ok comps =>
            let called :=
              [GetNextJob jobs;
               Preprocess (Py.unique stations) (Py.unique comps)
                          (goal_day_of jobs)] in
            if Nat.eqb (List.length (st_traces (bundle t))) 0
            then (called ++ mark_done jobs, Ok tt)
            else if Qeq_bool (goal_sampling_rate p) 0
            then (called, Raise ZeroDivisionError)
            else
              let dt := (1 / goal_sampling_rate p)%Q in
              match for_each (st_windows (bundle t))
                             (process_window p filters dt) [] with
              | Raise e => (called, Raise e)
              | Ok allcorr =>
                  let (evs, r) := finish_day p jobs allcorr in
                  (called ++ evs, r)
              end
        end
    end.

(** Lines 195-433: the [while] loop over the turns the database grants. *)
Fixpoint run_turns (p : params) (filters : list filterdb) (script : list turn)
  : list event * ending :=
  match script with
  | [] => ([], Finished)
  | t :: rest =>
      match one_turn p filters t with
      | (evs, Raise e) => (evs, Uncaught e)
      | (evs, Ok _) =>
          let (evs', fin) := run_turns p filters rest in (evs ++ evs', fin)
      end
  end.

(** Lines 170-433. *)
Definition main (filters : list filterdb) (p : params) (script : list turn)
  : list event * ending :=
  if Nat.eqb (List.length filters) 0 then ([], SysExit)
  else run_turns p filters script.

(** *** Facts on the turns of the loop *)

(** A job counts as marked Done when [update_job] was called for it with
    the flag D, or [massive_update_job] with a list that holds it. *)
Definition marked_done (j : job) (evs : list event) : Prop :=
  In (UpdateJob (job_day j) (job_pair j) "CC" "D" (Some (job_ref j))) evs
  \/ exists jobs, In (MassiveUpdateJob jobs "D") evs /\ In j jobs.


Lemma run_turns_ok (p : params) (filters : list filterdb) (t : turn)
      (rest : list turn) (evs : list event) :
  one_turn p filters t = (evs, Ok tt) ->
  run_turns p filters (t :: rest)
  = (evs ++ fst (run_turns p filters rest), snd (run_turns p filters rest)).
Proof.
  intro H. simpl. rewrite H. destruct (run_turns p filters rest). reflexivity.
Qed.

Lemma mark_done_marks (jobs : list job) (j : job) (pre : list event) :
  In j jobs -> marked_done j (pre ++ mark_done jobs).
Proof.
  intro Hin. left. apply in_or_app. right. unfold mark_done.
  apply in_map_iff. exists j. split; [reflexivity|exact Hin].
Qed.




(** C10.  A turn in which [get_next_job] returns no job calls nothing else:
    no job is marked, nothing is preprocessed, nothing is raised, and the
    loop goes on with the next turn. *)
Theorem empty_claim_skipped (p : params) (filters : list filterdb)
        (b : stream) (rest : list turn) :
  one_turn p filters (mkTurn [] b) = ([GetNextJob []], Ok tt)
  /\ run_turns p filters (mkTurn [] b :: rest)
     = (GetNextJob [] :: fst (run_turns p filters rest),
        snd (run_turns p filters rest)).
Proof.
  split; [reflexivity|].
  apply (run_turns_ok p filters (mkTurn [] b) rest [GetNextJob []]).
  reflexivity.
Qed.






(** *** A band that holds no frequency of the transform *)

Lemma names_normalize (p : params) (tmp : list (trace (list R))) :
  Pairs.names (normalize p tmp) = Pairs.names tmp.
Proof.
  unfold normalize, Normalizer.windsorize_all, Pairs.names.
  rewrite !map_map. apply map_ext. intro tr. reflexivity.
Qed.

Lemma correlate_band_raises (p : params) (f : filterdb)
      (filters : list filterdb) (dt : Q) (first : trace (list R))
      (kept : list (trace (list R))) (allcorr : allcorr_t) :
  hd_error kept = Some first ->
  forallb Pairs.channel_ok kept = true ->
  NoDup (map Pairs.codes kept) ->
  Stage.freq_sel (next_fast_len (npts first)) dt (filter_low f) (filter_high f)
  = [] ->
  correlate p (f :: filters) dt kept allcorr = Raise IndexError.
Proof.
  intros Hfirst Hok Hnd Hsel. unfold correlate.
  destruct kept as [|first' kept']; [discriminate|].
  simpl in Hfirst. inversion Hfirst; subst first'.
  rewrite names_normalize.
  destruct (Pooling.window_index (first :: kept') Hok) as (ci & Hci & _).
  rewrite Hci. cbn [bind].
  destruct (Pairs.pair_index_wanted p (first :: kept') Hok Hnd)
    as (idx & Hidx & _).
  rewrite Hidx. cbn [bind for_each]. unfold filter_stage, Stage.bounds.
  rewrite Hsel. reflexivity.
Qed.

(** C8, where the code departs from it.  When the first window of a day
    passes the checks of lines 249-280 and no frequency of its transform is
    in the first filter band, [freq_sel[0]] at line 358 raises IndexError;
    it is caught nowhere, so [main] ends with it after the claim and the
    preprocessing, and no job of the day is marked. *)
Theorem unusable_band_aborts (p : params) (f : filterdb)
        (filters : list filterdb) (t : turn) (rest : list turn)
        (w : window (list R)) (windows : list (window (list R)))
        (first : trace (list R)) (kept : list (trace (list R)))
        (stations comps : list string) :
  claimed t <> [] ->
  split_jobs (claimed t) = Ok stations ->
  needed_comps (components_to_compute p) = Ok comps ->
  st_traces (bundle t) <> [] ->
  st_windows (bundle t) = w :: windows ->
  GapFilter.select_channels samples_eq_dec p w = Go kept ->
  hd_error kept = Some first ->
  forallb Pairs.channel_ok kept = true ->
  NoDup (map Pairs.codes kept) ->
  ~ (goal_sampling_rate p == 0)%Q ->
  Stage.freq_sel (next_fast_len (npts first)) (1 / goal_sampling_rate p)%Q
                 (filter_low f) (filter_high f) = [] ->
  main (f :: filters) p (t :: rest)
  = ([GetNextJob (claimed t);
      Preprocess (Py.unique stations) (Py.unique comps)
                 (goal_day_of (claimed t))],
     Uncaught IndexError).
Proof.
  intros Hjobs Hsplit Hcomps Htraces Hwin Hgo Hfirst Hok Hnd Hsr Hsel.
  unfold main. cbn [List.length Nat.eqb run_turns]. unfold one_turn.
  destruct (Nat.eqb (List.length (claimed t)) 0) eqn:Hj.
  { apply GapFilter.length_zero_nil in Hj. contradiction. }
  rewrite Hsplit, Hcomps.
  destruct (Nat.eqb (List.length (st_traces (bundle t))) 0) eqn:Hl.
  { apply GapFilter.length_zero_nil in Hl. contradiction. }
  assert (Hq : Qeq_bool (goal_sampling_rate p) 0 = false).
  { destruct (Qeq_bool (goal_sampling_rate p) 0) eqn:E; [|reflexivity].
    apply Qeq_bool_iff in E. contradiction. }
  rewrite Hq, Hwin. cbn [for_each]. unfold process_window at 1.
  destruct (w_traces w) as [|t0 traces] eqn:Hw.
  { exfalso.
    apply (GapFilter.select_channels_nonempty _ samples_eq_dec p w kept Hgo).
    exact Hw. }
  rewrite Hgo.
  rewrite (correlate_band_raises p f filters _ first kept [] Hfirst Hok Hnd Hsel).
  reflexivity.
Qed.

(** *** The whitening policy *)

(** The policy as the documentation of the script words it, for the pair of
    rows [i] and [j] whose channels have the component letters [ki] and
    [kj]: never for [N]; for [A], unless the pair is a channel with itself;
    for [C], when the letters differ. *)
Definition should_whiten (policy : whitening_policy) (i j : nat)
           (ki kj : ascii) : bool :=
  match policy with
  | WhitenNone => false
  | WhitenAll => negb (Nat.eqb i j)
  | WhitenComponents => negb (Ascii.eqb ki kj)
  end.

(** The policy decided pair by pair: the two rows correlated for a pair are
    the whitened spectra of its channels when the policy asks for it, and
    the spectra as transformed otherwise.  [W i x] is the whitening of the
    spectrum [x] of row [i] in the band at hand, [raw] the transformed
    batch and [ffts] the batch that is correlated. *)
Definition per_pair_policy (W : nat -> spectrum -> spectrum)
           (policy : whitening_policy) (letters : list ascii)
           (raw ffts : list spectrum) (idx : list Pairs.pair_entry) : Prop :=
  forall key i j ki kj xi xj,
    In (key, i, j) idx ->
    nth_error letters i = Some ki -> nth_error letters j = Some kj ->
    nth_error raw i = Some xi -> nth_error raw j = Some xj ->
    pair_rows ffts (key, i, j)
    = if should_whiten policy i j ki kj
      then (Some (W i xi), Some (W j xj))
      else (Some xi, Some xj).

(** C1, where the code departs from it.  [whiten2] is handed the whole batch
    once per band, without the pairs, and every pair is correlated from the
    rows of the batch it leaves.  So when a channel is in a pair the policy
    whitens and in a pair it does not, and whitening changes its spectrum,
    the rows correlated do not follow the policy, whatever [whiten2]
    does. *)
Theorem whitening_not_per_pair
        (p : params) (nfft : nat) (samples psds : list (list R))
        (b : Z * nat * nat * Z) (W : nat -> spectrum -> spectrum)
        (letters : list ascii) (idx : list Pairs.pair_entry)
        (key key' : string) (i j j' : nat) (ki kj kj' : ascii)
        (xi xj xj' : spectrum) :
  In (key, i, j) idx -> In (key', i, j') idx ->
  nth_error letters i = Some ki ->
  nth_error letters j = Some kj -> nth_error letters j' = Some kj' ->
  nth_error (fftn samples nfft) i = Some xi ->
  nth_error (fftn samples nfft) j = Some xj ->
  nth_error (fftn samples nfft) j' = Some xj' ->
  should_whiten (whitening p) i j ki kj = true ->
  should_whiten (whitening p) i j' ki kj' = false ->
  W i xi <> xi ->
  ~ per_pair_policy W (whitening p) letters (fftn samples nfft)
                    (whitened p nfft samples psds b) idx.
Proof.
  intros Hin Hin' Hki Hkj Hkj' Hxi Hxj Hxj' Hyes Hno Hchange Hpolicy.
  pose proof (Hpolicy key i j ki kj xi xj Hin Hki Hkj Hxi Hxj) as H1.
  pose proof (Hpolicy key' i j' ki kj' xi xj' Hin' Hki Hkj' Hxi Hxj') as H2.
  rewrite Hyes in H1. rewrite Hno in H2. unfold pair_rows in H1, H2.
  simpl in H1, H2. apply Hchange. congruence.
Qed.


Lemma run_turns_no_exit (p : params) (filters : list filterdb)
      (script : list turn) :
  snd (run_turns p filters script) <> SysExit.
Proof.
  induction script as [|t rest IH]; simpl; [discriminate|].
  destruct (one_turn p filters t) as [evs [u|e]]; [|discriminate].
  destruct (run_turns p filters rest) as [evs' fin]. exact IH.
Qed.

(** X1.  Without a filter band [main] exits at line 182, before [get_next_job] is
    called and whatever the database holds; with a filter band it never
    ends by [sys.exit]. *)
Theorem no_filters_exits (filters : list filterdb) (p : params)
        (script : list turn) :
  (filters = [] -> main filters p script = ([], SysExit))
  /\ (filters <> [] -> snd (main filters p script) <> SysExit).
Proof.
  unfold main. split.
  - intros ->. reflexivity.
  - intro Hne. destruct filters as [|f filters]; [congruence|].
    cbn [List.length Nat.eqb]. apply run_turns_no_exit.
Qed.

(** X3.  A window left with [continue] adds nothing to [allcorr] and raises
    nothing. *)
Theorem skipped_window_adds_nothing (p : params) (filters : list filterdb)
        (dt : Q) (w : window (list R)) (allcorr : allcorr_t) :
  w_traces w <> [] ->
  is_skip (GapFilter.select_channels samples_eq_dec p w) ->
  process_window p filters dt w allcorr = Ok allcorr.
Proof.
  intros Hne Hskip. unfold process_window.
  destruct (w_traces w); [congruence|].
  destruct (GapFilter.select_channels samples_eq_dec p w);
    [destruct Hskip|reflexivity|destruct Hskip].
Qed.


(** *** What a day accumulates *)

Lemma for_each_invariant (A S : Type) (P : S -> Prop)
      (body : A -> S -> result S) (l : list A) :
  (forall x s s', P s -> body x s = Ok s' -> P s') ->
  forall s r, P s -> for_each l body s = Ok r -> P r.
Proof.
  intro Hstep. induction l as [|x l IH]; intros s r Hs H; simpl in H.
  - inversion H; subst. exact Hs.
  - destruct (body x s) as [s'|e] eqn:Hb; simpl in H; [|discriminate].
    apply (IH s' r); [apply (Hstep x s s' Hs Hb)|exact H].
Qed.

Lemma fold_left_invariant (A S : Type) (P : S -> Prop) (f : S -> A -> S)
      (l : list A) :
  (forall s x, P s -> P (f s x)) -> forall s, P s -> P (fold_left f l s).
Proof.
  intro Hstep. induction l as [|x l IH]; intros s Hs; simpl; [exact Hs|].
  apply IH. apply Hstep. exact Hs.
Qed.

Lemma filter_stage_well_filled (p : params) (dt : Q) (nfft : nat)
      (samples psds : list (list R)) (pair_index : list Pairs.pair_entry)
      (thisdate thistime : string) (f : filterdb) (allcorr allcorr' : allcorr_t) :
  Stage.well_filled allcorr ->
  filter_stage p dt nfft samples psds pair_index thisdate thistime f allcorr
  = Ok allcorr' ->
  Stage.well_filled allcorr'.
Proof.
  intros Hw. unfold filter_stage.
  destruct (Stage.bounds 100 nfft dt f) as [b|e]; simpl; [|discriminate].
  intro H. inversion H; subst; clear H.
  apply fold_left_invariant; [|exact Hw].
  intros s kv Hs. apply Stage.store_corr_well_filled. exact Hs.
Qed.

Lemma correlate_well_filled (p : params) (filters : list filterdb) (dt : Q)
      (kept : list (trace (list R))) (allcorr allcorr' : allcorr_t) :
  Stage.well_filled allcorr ->
  correlate p filters dt kept allcorr = Ok allcorr' ->
  Stage.well_filled allcorr'.
Proof.
  intros Hw. unfold correlate. destruct kept as [|first kept']; [discriminate|].
  destruct (Pooling.build_index _) as [ci|e]; simpl; [|discriminate].
  destruct (Pairs.pair_index p _) as [idx|e]; simpl; [|discriminate].
  apply for_each_invariant; [|exact Hw].
  intros f s s' Hs Hf. exact (filter_stage_well_filled _ _ _ _ _ _ _ _ _ _ _ Hs Hf).
Qed.

Lemma process_window_well_filled (p : params) (filters : list filterdb)
      (dt : Q) (w : window (list R)) (allcorr allcorr' : allcorr_t) :
  Stage.well_filled allcorr ->
  process_window p filters dt w allcorr = Ok allcorr' ->
  Stage.well_filled allcorr'.
Proof.
  intros Hw. unfold process_window. destruct (w_traces w); [discriminate|].
  destruct (GapFilter.select_channels samples_eq_dec p w) as [kept|why|e].
  - apply correlate_well_filled. exact Hw.
  - intro H. inversion H; subst. exact Hw.
  - discriminate.
Qed.

(** X8.  Whatever the windows of a day hold, the [allcorr] they leave holds
    each result id once, and under each id at least one correlation, with
    distinct window times: the check of line 402 ("No data to stack") never
    fires. *)
Theorem accumulated_not_empty (p : params) (filters : list filterdb) (dt : Q)
        (windows : list (window (list R))) (allcorr : allcorr_t) :
  for_each windows (process_window p filters dt) [] = Ok allcorr ->
  NoDup (map fst allcorr)
  /\ forall ccfid inner,
       In (ccfid, inner) allcorr ->
       NoDup (map fst inner)
       /\ Nat.eqb (List.length (map snd inner)) 0 = false.
Proof.
  intro H.
  assert (Hw : Stage.well_filled allcorr).
  { revert H. apply for_each_invariant; [|exact Stage.well_filled_empty].
    intros w s s' Hs Hstep. exact (process_window_well_filled _ _ _ _ _ _ Hs Hstep). }
  destruct Hw as [Hnd Hall]. split; [exact Hnd|].
  intros ccfid inner Hin. destruct (Hall ccfid inner Hin) as [Hne Hnd'].
  split; [exact Hnd'|]. rewrite length_map.
  destruct inner; [congruence|reflexivity].
Qed.


(** *** The daily stacks *)

(** X9.  A result id written at line 383 for two stations whose codes hold
    neither an underscore nor a dot is read back at lines 398-420: when the
    id holds a correlation and the stack is not empty, [add_corr] is called
    once, with the two stations as [net_sta], the filter id as a number, the
    components, the stack of the correlations of the id and their count. *)
Theorem stack_one_decodes (p : params) (goal_day n1 s1 n2 s2 thisdate : string)
        (k1 k2 : ascii) (fid : Z) (inner : list (string * list R)) :
  Py.has_char Stage.underscore n1 = false -> Py.has_char dot n1 = false ->
  Py.has_char Stage.underscore s1 = false -> Py.has_char dot s1 = false ->
  Py.has_char Stage.underscore n2 = false -> Py.has_char dot n2 = false ->
  Py.has_char Stage.underscore s2 = false -> Py.has_char dot s2 = false ->
  k1 <> Stage.underscore -> k2 <> Stage.underscore ->
  Py.has_char Stage.underscore thisdate = false ->
  inner <> [] -> stack p (map snd inner) <> [] ->
  stack_one p goal_day
    (Stage.ccfid_of (Pairs.pair_key n1 s1 n2 s2 (Pairs.comp_of k1 k2))
                    fid thisdate,
     inner)
  = ([AddCorr (n1 ++ "_" ++ s1)%string (n2 ++ "_" ++ s2)%string fid goal_day
              (Pairs.comp_of k1 k2) (stack p (map snd inner))
              (List.length inner)],
     Ok tt).
Proof.
  intros Hn1 Dn1 Hs1 Ds1 Hn2 Dn2 Hs2 Ds2 Hk1 Hk2 Hdate Hinner Hstack.
  unfold stack_one. cbn [fst snd].
  change "_"%char with Stage.underscore.
  rewrite (Stage.split_ccfid n1 s1 n2 s2 thisdate k1 k2 fid) by assumption.
  rewrite length_map.
  destruct inner as [|kv inner']; [congruence|]. cbn [List.length Nat.eqb].
  destruct (stack p (map snd (kv :: inner'))) as [|x corr] eqn:Hcorr;
    [congruence|].
  cbn [List.length Nat.eqb]. rewrite Stage.parse_fmt_02i.
  rewrite !Stage.replace_app.
  rewrite (Stage.replace_absent dot Stage.underscore n1 Dn1),
    (Stage.replace_absent dot Stage.underscore s1 Ds1),
    (Stage.replace_absent dot Stage.underscore n2 Dn2),
    (Stage.replace_absent dot Stage.underscore s2 Ds2).
  reflexivity.
Qed.

(** X10.  A result id that does not hold exactly four underscores (a
    network or station code with an underscore in it gives one) makes the
    unpacking of line 398 raise ValueError, before [add_corr] is called for
    it. *)
Theorem stack_one_bad_id (p : params) (goal_day : string)
        (kv : string * list (string * list R)) :
  Stage.count_char Stage.underscore (fst kv) <> 4 ->
  stack_one p goal_day kv = ([], Raise ValueError).
Proof.
  intro Hcount. unfold stack_one. change "_"%char with Stage.underscore.
  pose proof (Stage.split_length Stage.underscore (fst kv)) as Hlen.
  destruct (Py.split Stage.underscore (fst kv))
    as [|a [|b [|c [|d [|e [|f l]]]]]]; try reflexivity.
  simpl in Hlen. congruence.
Qed.


(** *** How a turn and a run end *)

(** The calls that change the state of a job: [update_job] and
    [massive_update_job]. *)
Definition is_update (ev : event) : bool :=
  match ev with
  | UpdateJob _ _ _ _ _ => true
  | MassiveUpdateJob _ _ => true
  | _ => false
  end.

Lemma stack_one_no_update (p : params) (goal_day : string)
      (kv : string * list (string * list R)) (ev : event) :
  In ev (fst (stack_one p goal_day kv)) -> is_update ev = false.
Proof.
  unfold stack_one.
  destruct (Py.split "_" (fst kv)) as [|a [|b [|c [|d [|e [|f l]]]]]];
    try (intros []).
  destruct (Nat.eqb (List.length (map snd (snd kv))) 0); [intros []|].
  destruct (Nat.eqb (List.length (stack p (map snd (snd kv)))) 0);
    [intros []|].
  destruct (Stage.parse_int d); [|intros []].
  intros [<-|[]]. reflexivity.
Qed.

Lemma stack_days_no_update (p : params) (goal_day : string)
      (allcorr : allcorr_t) (ev : event) :
  In ev (fst (stack_days p goal_day allcorr)) -> is_update ev = false.
Proof.
  induction allcorr as [|kv rest IH]; simpl; [intros []|].
  pose proof (stack_one_no_update p goal_day kv ev) as Hone.
  destruct (stack_one p goal_day kv) as [evs [u|e]]; simpl in *.
  - destruct (stack_days p goal_day rest) as [evs' r]. simpl in *.
    intro Hin. apply in_app_or in Hin. destruct Hin as [Hin|Hin];
      [apply Hone; exact Hin|apply IH; exact Hin].
  - exact Hone.
Qed.

Lemma export_no_update (allcorr : allcorr_t) (ev : event) :
  In ev (map (fun kv => ExportAllcorr (fst kv) (snd kv)) allcorr) ->
  is_update ev = false.
Proof.
  intro H. apply in_map_iff in H. destruct H as (kv & <- & _). reflexivity.
Qed.

(** The day that ends with an exception marks nothing, the day that ends
    without marks every job. *)
Lemma finish_day_outcome (p : params) (jobs : list job) (allcorr : allcorr_t)
      (evs : list event) (r : result unit) :
  finish_day p jobs allcorr = (evs, r) ->
  match r with
  | Raise _ => forall ev, In ev evs -> is_update ev = false
  | Ok _ => In (MassiveUpdateJob jobs "D") evs
  end.
Proof.
  unfold finish_day.
  set (exported := if keep_all p
                   then map (fun kv => ExportAllcorr (fst kv) (snd kv)) allcorr
                   else []).
  assert (Hexp : forall ev, In ev exported -> is_update ev = false).
  { unfold exported. destruct (keep_all p); [apply export_no_update|intros ev []]. }
  set (stacked := if keep_days p then stack_days p (goal_day_of jobs) allcorr
                  else ([], Ok tt)).
  assert (Hst : forall ev, In ev (fst stacked) -> is_update ev = false).
  { unfold stacked. destruct (keep_days p);
      [apply stack_days_no_update|intros ev []]. }
  destruct stacked as [evs' [u|e]]; simpl in Hst; intro H; inversion H; subst.
  - apply in_or_app. right. apply in_or_app. right. left. reflexivity.
  - intros ev Hin. apply in_app_or in Hin.
    destruct Hin as [Hin|Hin]; [apply Hexp|apply Hst]; exact Hin.
Qed.

(** A turn that raises has called [get_next_job] first and has changed the
    state of no job. *)
Lemma one_turn_raise (p : params) (filters : list filterdb) (t : turn)
      (evs : list event) (e : exn) :
  one_turn p filters t = (evs, Raise e) ->
  hd_error evs = Some (GetNextJob (claimed t))
  /\ forall ev, In ev evs -> is_update ev = false.
Proof.
  unfold one_turn.
  destruct (Nat.eqb (List.length (claimed t)) 0); [discriminate|].
  destruct (split_jobs (claimed t)) as [stations|e1].
  2:{ intro H. inversion H; subst. split; [reflexivity|].
      intros ev [<-|[]]. reflexivity. }
  destruct (needed_comps (components_to_compute p)) as [comps|e2].
  2:{ intro H. inversion H; subst. split; [reflexivity|].
      intros ev [<-|[]]. reflexivity. }
  destruct (Nat.eqb (List.length (st_traces (bundle t))) 0); [discriminate|].
  destruct (Qeq_bool (goal_sampling_rate p) 0).
  { intro H. inversion H; subst. split; [reflexivity|].
    intros ev [<-|[<-|[]]]; reflexivity. }
  destruct (for_each _ _ _) as [allcorr|e3].
  2:{ intro H. inversion H; subst. split; [reflexivity|].
      intros ev [<-|[<-|[]]]; reflexivity. }
  pose proof (finish_day_outcome p (claimed t) allcorr) as Hfin.
  destruct (finish_day p (claimed t) allcorr) as [evs' r].
  intro H. inversion H; subst. split; [reflexivity|].
  specialize (Hfin evs' (Raise e) eq_refl). simpl in Hfin.
  intros ev [<-|[<-|Hin]]; [reflexivity|reflexivity|apply Hfin; exact Hin].
Qed.

(** A turn that does not raise has marked every job it claimed. *)
Lemma one_turn_ok (p : params) (filters : list filterdb) (t : turn)
      (evs : list event) (u : unit) (j : job) :
  one_turn p filters t = (evs, Ok u) -> In j (claimed t) -> marked_done j evs.
Proof.
  unfold one_turn.
  destruct (Nat.eqb (List.length (claimed t)) 0) eqn:Hj.
  { apply GapFilter.length_zero_nil in Hj. rewrite Hj. intros _ []. }
  destruct (split_jobs (claimed t)) as [stations|e1]; [|discriminate].
  destruct (needed_comps (components_to_compute p)) as [comps|e2];
    [|discriminate].
  destruct (Nat.eqb (List.length (st_traces (bundle t))) 0).
  { intro H. inversion H; subst. intro Hin.
    apply (mark_done_marks (claimed t) j [_; _] Hin). }
  destruct (Qeq_bool (goal_sampling_rate p) 0); [discriminate|].
  destruct (for_each _ _ _) as [allcorr|e3]; [|discriminate].
  pose proof (finish_day_outcome p (claimed t) allcorr) as Hfin.
  destruct (finish_day p (claimed t) allcorr) as [evs' r].
  intro H. inversion H; subst. intro Hin.
  specialize (Hfin evs' (Ok u) eq_refl). simpl in Hfin.
  right. exists (claimed t). split; [|exact Hin].
  right. right. exact Hfin.
Qed.

Lemma marked_done_app (j : job) (evs evs' : list event) :
  marked_done j evs \/ marked_done j evs' -> marked_done j (evs ++ evs').
Proof.
  unfold marked_done.
  intros [[H|(jobs & H & Hj)]|[H|(jobs & H & Hj)]].
  - left. apply in_or_app. left. exact H.
  - right. exists jobs. split; [apply in_or_app; left; exact H|exact Hj].
  - left. apply in_or_app. right. exact H.
  - right. exists jobs. split; [apply in_or_app; right; exact H|exact Hj].
Qed.

(** X11.  When [main] runs to its end, every job that [get_next_job]
    handed out in any turn has been marked Done, by [update_job] or by
    [massive_update_job]. *)
Theorem finished_run_marks_all (filters : list filterdb) (p : params)
        (script : list turn) (evs : list event) (t : turn) (j : job) :
  main filters p script = (evs, Finished) ->
  In t script -> In j (claimed t) -> marked_done j evs.
Proof.
  unfold main. destruct (Nat.eqb (List.length filters) 0); [discriminate|].
  revert evs. induction script as [|t0 rest IH]; intros evs Hrun Ht Hj;
    [destruct Ht|].
  simpl in Hrun.
  destruct (one_turn p filters t0) as [evs0 [u|e]] eqn:Hone; [|discriminate].
  destruct (run_turns p filters rest) as [evs' fin] eqn:Hrest.
  inversion Hrun; subst. apply marked_done_app.
  destruct Ht as [->|Ht].
  - left. exact (one_turn_ok p filters t evs0 u j Hone Hj).
  - right. apply IH; [reflexivity|exact Ht|exact Hj].
Qed.

(** X12.  When [main] ends with an uncaught exception, the log ends with
    the turn that raised it: the turns before it ended without, the turn
    called [get_next_job] first and changed the state of no job (its jobs
    stay In progress, no STACK job is queued for them), and no job is
    claimed after it. *)
Theorem uncaught_leaves_jobs_in_progress (filters : list filterdb)
        (p : params) (script : list turn) (evs : list event) (e : exn) :
  main filters p script = (evs, Uncaught e) ->
  exists pre t rest evs_pre evs_t,
    script = pre ++ t :: rest
    /\ run_turns p filters pre = (evs_pre, Finished)
    /\ one_turn p filters t = (evs_t, Raise e)
    /\ evs = evs_pre ++ evs_t
    /\ hd_error evs_t = Some (GetNextJob (claimed t))
    /\ forall ev, In ev evs_t -> is_update ev = false.
Proof.
  unfold main. destruct (Nat.eqb (List.length filters) 0); [discriminate|].
  revert evs. induction script as [|t0 rest IH]; intros evs Hrun;
    [discriminate|].
  simpl in Hrun.
  destruct (one_turn p filters t0) as [evs0 [u|e0]] eqn:Hone.
  - destruct (run_turns p filters rest) as [evs' fin] eqn:Hrest.
    inversion Hrun; subst.
    destruct (IH evs' eq_refl)
      as (pre & t & rest' & evs_pre & evs_t & -> & Hpre & Ht & -> & Hhd & Hno).
    exists (t0 :: pre), t, rest', (evs0 ++ evs_pre), evs_t.
    split; [reflexivity|]. split.
    { simpl. rewrite Hone, Hpre. destruct u. reflexivity. }
    split; [exact Ht|]. split; [apply app_assoc|]. split; assumption.
  - inversion Hrun; subst.
    destruct (one_turn_raise p filters t0 evs e Hone) as [Hhd Hno].
    exists [], t0, rest, [], evs. repeat split; assumption.
Qed.


(** *** The stations and the components asked of the preprocessor *)

Lemma str1_not_RT (c : ascii) :
  is_RT c = false -> Py.str1 c <> "R" /\ Py.str1 c <> "T".
Proof.
  unfold is_RT, Py.str1. intro H. apply orb_false_iff in H.
  destruct H as [HR HT]. apply Ascii.eqb_neq in HR. apply Ascii.eqb_neq in HT.
  split; intro E; inversion E; congruence.
Qed.

(** X13.  The components asked of the preprocessor (lines 222-229) never
    hold R or T: a configured pair with R or T as its first or second letter
    asks for E and N instead, both of them. *)
Theorem needed_comps_horizontals (cs comps : list string) :
  needed_comps cs = Ok comps ->
  (forall c, In c comps -> c <> "R" /\ c <> "T")
  /\ (forall comp k,
        In comp cs ->
        Py.char_at 0 comp = Ok k \/ Py.char_at 1 comp = Ok k ->
        is_RT k = true ->
        In "E" comps /\ In "N" comps).
Proof.
  unfold needed_comps. intro H.
  pose proof (for_each_append string string comps_of cs [] comps H) as Hin.
  split.
  - intros c Hc. apply Hin in Hc. destruct Hc as [[]|(comp & es & _ & Hes & Hc)].
    unfold comps_of in Hes.
    destruct (Py.char_at 0 comp) as [c0|e]; simpl in Hes; [|discriminate].
    destruct (is_RT c0) eqn:H0.
    { inversion Hes; subst.
      destruct Hc as [<-|[<-|[]]]; split; discriminate. }
    destruct (Py.char_at 1 comp) as [c1|e]; simpl in Hes; [|discriminate].
    destruct (is_RT c1) eqn:H1.
    { inversion Hes; subst.
      destruct Hc as [<-|[<-|[]]]; split; discriminate. }
    inversion Hes; subst.
    destruct Hc as [<-|[<-|[]]]; apply str1_not_RT; assumption.
  - intros comp k Hcomp Hk HRT.
    assert (Hes : comps_of comp = Ok ["E"; "N"] \/ exists e, comps_of comp = Raise e).
    { unfold comps_of.
      destruct (Py.char_at 0 comp) as [c0|e]; simpl; [|right; eexists; reflexivity].
      destruct (is_RT c0) eqn:H0; [left; reflexivity|].
      destruct (Py.char_at 1 comp) as [c1|e]; simpl; [|right; eexists; reflexivity].
      destruct (is_RT c1) eqn:H1; [left; reflexivity|].
      destruct Hk as [Hk|Hk]; inversion Hk; subst; congruence. }
    destruct Hes as [Hes|[e Hes]].
    + split; apply Hin; right; exists comp, ["E"; "N"];
        (split; [exact Hcomp|split; [exact Hes|]]);
        [left; reflexivity|right; left; reflexivity].
    + exfalso. clear Hin. revert H. generalize (@nil string).
      induction cs as [|c0 cs IH]; [destruct Hcomp|].
      intros acc. simpl. destruct Hcomp as [->|Hcomp].
      * rewrite Hes. discriminate.
      * destruct (comps_of c0); simpl; [|discriminate]. apply IH. exact Hcomp.
Qed.

Lemma split_pair_colon (j : job) :
  (Stage.count_char ":" (job_pair j) = 1 ->
   exists a b, Py.split ":" (job_pair j) = [a; b])
  /\ (Stage.count_char ":" (job_pair j) <> 1 ->
      forall a b, Py.split ":" (job_pair j) <> [a; b]).
Proof.
  pose proof (Stage.split_length ":" (job_pair j)) as Hlen. split.
  - intro Hc. rewrite Hc in Hlen.
    destruct (Py.split ":" (job_pair j)) as [|a [|b [|c l]]];
      try discriminate. exists a, b. reflexivity.
  - intros Hc a b E. rewrite E in Hlen. simpl in Hlen. congruence.
Qed.

(** X14.  The claimed pairs are split at their colon (line 211): when every
    pair holds exactly one, two stations are listed per job; a pair with no
    colon or with more than one raises ValueError. *)
Theorem split_jobs_one_colon (jobs : list job) :
  ((forall j, In j jobs -> Stage.count_char ":" (job_pair j) = 1) ->
   exists stations,
     split_jobs jobs = Ok stations
     /\ List.length stations = 2 * List.length jobs)
  /\ ((exists j, In j jobs /\ Stage.count_char ":" (job_pair j) <> 1) ->
      split_jobs jobs = Raise ValueError).
Proof.
  unfold split_jobs. split.
  - assert (Hgen : forall acc,
               (forall j, In j jobs -> Stage.count_char ":" (job_pair j) = 1) ->
               exists stations,
                 for_each jobs
                   (fun job stations =>
                      match Py.split ":" (job_pair job) with
                      | [netsta1; netsta2] => Ok (stations ++ [netsta1; netsta2])
                      | _ => Raise ValueError
                      end) acc = Ok stations
                 /\ List.length stations
                    = List.length acc + 2 * List.length jobs).
    { induction jobs as [|j jobs IH]; intros acc Hall.
      - exists acc. split; [reflexivity|]. simpl. lia.
      - destruct (proj1 (split_pair_colon j) (Hall j (or_introl eq_refl)))
          as (a & b & E).
        cbn [for_each]. rewrite E. cbn [bind].
        destruct (IH (acc ++ [a; b])) as (st & Hst & Hlen).
        { intros j' Hj'. apply Hall. right. exact Hj'. }
        exists st. split; [exact Hst|].
        rewrite Hlen, length_app. simpl. lia. }
    intro Hall. destruct (Hgen [] Hall) as (st & Hst & Hlen).
    exists st. split; [exact Hst|]. simpl in Hlen. lia.
  - assert (Hgen : forall acc,
               (exists j, In j jobs /\ Stage.count_char ":" (job_pair j) <> 1) ->
               for_each jobs
                 (fun job stations =>
                    match Py.split ":" (job_pair job) with
                    | [netsta1; netsta2] => Ok (stations ++ [netsta1; netsta2])
                    | _ => Raise ValueError
                    end) acc = Raise ValueError).
    { induction jobs as [|j jobs IH]; intros acc (j0 & Hin & Hc);
        [destruct Hin|].
      cbn [for_each].
      destruct (Nat.eq_dec (Stage.count_char ":" (job_pair j)) 1) as [E1|E1].
      - destruct (proj1 (split_pair_colon j) E1) as (a & b & E).
        rewrite E. cbn [bind].
        apply IH. destruct Hin as [->|Hin]; [congruence|].
        exists j0. split; assumption.
      - pose proof (proj2 (split_pair_colon j) E1) as Hno.
        destruct (Py.split ":" (job_pair j)) as [|a [|b [|c l]]];
          try reflexivity.
        exfalso. apply (Hno a b). reflexivity. }
    apply Hgen.
Qed.


(** *** The length of the correlations a day stores *)

(** What the spec says of [myCorr2], as a property of the function the
    script calls: every correlation it returns is the segment of the lags of
    magnitude at most its [maxlag] argument, for the transform size it is
    handed. *)
Definition myCorr2_segments : Prop :=
  forall ffts m energy idx nfft key c,
    In (key, c) (myCorr2 ffts m energy idx nfft) ->
    exists corr_at, c = Correlation.myCorr2_segment corr_at m nfft.

(** Every correlation in [allcorr] has [n] values. *)
Definition all_of_length (n : Z) (allcorr : allcorr_t) : Prop :=
  forall ccfid inner thistime c,
    In (ccfid, inner) allcorr -> In (thistime, c) inner ->
    Z.of_nat (List.length c) = n.

Lemma store_corr_length (n : Z) (ccfid thistime : string) (c : list R)
      (allcorr : allcorr_t) :
  all_of_length n allcorr -> Z.of_nat (List.length c) = n ->
  all_of_length n (Stage.store_corr ccfid thistime c allcorr).
Proof.
  intros Hall Hc id inner t c' Hin Hin'. unfold Stage.store_corr in Hin.
  apply Stage.store_In in Hin. destruct Hin as [Hin|Hin].
  - inversion Hin; subst id inner; clear Hin.
    apply Stage.store_In in Hin'. destruct Hin' as [Hin'|Hin'].
    + injection Hin' as _ ->. exact Hc.
    + destruct (Dict.lookup string_dec ccfid allcorr) as [d|] eqn:Hd;
        [|destruct Hin'].
      apply Dict.In_lookup in Hd. exact (Hall ccfid d t c' Hd Hin').
  - exact (Hall id inner t c' Hin Hin').
Qed.

Lemma fold_left_invariant_In (A S : Type) (P : S -> Prop) (f : S -> A -> S)
      (l : list A) :
  (forall s x, In x l -> P s -> P (f s x)) ->
  forall s, P s -> P (fold_left f l s).
Proof.
  induction l as [|x l IH]; intros Hstep s Hs; simpl; [exact Hs|].
  apply IH.
  - intros s' y Hy. apply Hstep. right. exact Hy.
  - apply Hstep; [left; reflexivity|exact Hs].
Qed.

Lemma filter_stage_length (p : params) (dt : Q) (nfft : nat)
      (samples psds : list (list R)) (pair_index : list Pairs.pair_entry)
      (thisdate thistime : string) (f : filterdb) (allcorr allcorr' : allcorr_t) :
  myCorr2_segments ->
  (0 <= Qceiling (maxlag p / dt) <= Z.of_nat nfft - 1)%Z ->
  all_of_length (2 * Qceiling (maxlag p / dt) + 1) allcorr ->
  filter_stage p dt nfft samples psds pair_index thisdate thistime f allcorr
  = Ok allcorr' ->
  all_of_length (2 * Qceiling (maxlag p / dt) + 1) allcorr'.
Proof.
  intros Hseg Hm Hall. unfold filter_stage.
  destruct (Stage.bounds 100 nfft dt f) as [b|e]; simpl; [|discriminate].
  intro H. inversion H; subst; clear H.
  apply fold_left_invariant_In; [|exact Hall].
  intros s [key c] Hin Hs. apply store_corr_length; [exact Hs|].
  destruct (Hseg _ _ _ _ _ key c Hin) as [corr_at ->].
  apply Correlation.segment_length. exact Hm.
Qed.

Lemma correlate_length (p : params) (filters : list filterdb) (dt : Q)
      (kept : list (trace (list R))) (base : nat)
      (allcorr allcorr' : allcorr_t) :
  myCorr2_segments ->
  (forall tr, In tr kept -> npts tr = base) ->
  (0 <= Qceiling (maxlag p / dt)
   <= Z.of_nat (next_fast_len base) - 1)%Z ->
  all_of_length (2 * Qceiling (maxlag p / dt) + 1) allcorr ->
  correlate p filters dt kept allcorr = Ok allcorr' ->
  all_of_length (2 * Qceiling (maxlag p / dt) + 1) allcorr'.
Proof.
  intros Hseg Hbase Hm Hall. unfold correlate.
  destruct kept as [|first kept']; [discriminate|].
  rewrite (Hbase first (or_introl eq_refl)).
  destruct (Pooling.build_index _) as [ci|e]; simpl; [|discriminate].
  destruct (Pairs.pair_index p _) as [idx|e]; simpl; [|discriminate].
  apply for_each_invariant; [|exact Hall].
  intros f s s' Hs Hf.
  exact (filter_stage_length _ _ _ _ _ _ _ _ _ _ _ Hseg Hm Hs Hf).
Qed.

(** C7.  With [myCorr2] returning segments of lags as the spec has it, a
    lag that is not negative and a positive sampling rate, every
    correlation that the windows of a day leave in [allcorr] has exactly
    [2 * ceil(maxlag / dt) + 1] values, [dt] being the sample spacing
    [1 / goal_sampling_rate]: the window check of line 268 makes the lag
    window fit, whatever transform size at least the sample count
    [next_fast_len] picks. *)
Theorem pair_correlation_length (p : params) (filters : list filterdb)
        (windows : list (window (list R))) (allcorr : allcorr_t)
        (ccfid thistime : string) (inner : list (string * list R))
        (c : list R) :
  myCorr2_segments ->
  (forall n, n <= next_fast_len n) ->
  (0 <= maxlag p)%Q -> (0 < goal_sampling_rate p)%Q ->
  for_each windows (process_window p filters (1 / goal_sampling_rate p)%Q) []
  = Ok allcorr ->
  In (ccfid, inner) allcorr -> In (thistime, c) inner ->
  Z.of_nat (List.length c)
  = (2 * Qceiling (maxlag p / (1 / goal_sampling_rate p)) + 1)%Z.
Proof.
  intros Hseg Hfast Hlag Hsr Hrun Hin Hin'.
  set (dt := (1 / goal_sampling_rate p)%Q) in *.
  assert (Hall : all_of_length (2 * Qceiling (maxlag p / dt) + 1) allcorr).
  { revert Hrun. apply for_each_invariant.
    - intros w s s' Hs. unfold process_window.
      destruct (w_traces w); [discriminate|].
      destruct (GapFilter.select_channels samples_eq_dec p w)
        as [kept|why|e] eqn:Hgo.
      + destruct (GapFilter.select_channels_go _ samples_eq_dec p w kept Hgo)
          as (base & Hshort & _ & Hbase).
        pose proof (Correlation.lag_samples_bounds p base Hlag Hsr Hshort)
          as Hm.
        fold dt in Hm.
        apply (correlate_length p filters dt kept base s s' Hseg Hbase);
          [|exact Hs].
        pose proof (Hfast base). lia.
      + intro H. inversion H; subst. exact Hs.
      + discriminate.
    - intros id d t c' []. }
  exact (Hall ccfid inner thistime c Hin Hin').
Qed.


End Run.

End Runner.

(** ** The theorems on concrete windows and days *)

Module Scenarios.

Local Open Scope R_scope.

(** A trace of network BE, sampled at 20 Hz. *)
Definition tr (sta chan : string) (samples : list R) : trace (list R) :=
  mkTrace "BE" sta "" chan 0%Q 20%Q (List.length samples) samples.

Definition A_Z : trace (list R) := tr "A" "HHZ" [1; 2; -1; 0; 3; 1; -2; 0].
Definition B_N : trace (list R) := tr "B" "HHN" [0; 1; 1; -1; 2; 0; -3; 1].
Definition B_Z : trace (list R) := tr "B" "HHZ" [2; 0; -1; 1; 0; 1; -2; -1].
Definition B_E : trace (list R) := tr "B" "HHE" [1; 1; 0; -2; 1; 0; -1; 0].
(** The two segments of a channel with a gap of a quarter of a second. *)
Definition B_Z_start : trace (list R) := tr "B" "HHZ" [2; 0; -1].
Definition B_Z_end : trace (list R) := tr "B" "HHZ" [1; -2; -1; 0].
(** A channel that ends one sample early. *)
Definition B_Z_short : trace (list R) := tr "B" "HHZ" [2; 0; -1; 1; 0; 1; -2].

(** [maxlag] is 0.1 s at 20 Hz: the lag span is 5 samples. *)
Definition config (cs : list string) (policy : whitening_policy)
           (auto : bool) : params :=
  mkParams cs 20%Q (1 # 10)%Q 1800%Q 0%Q 3%Q policy auto false true 0%Q.

Definition P : params := config ["ZZ"; "ZN"] WhitenComponents false.
Definition P_auto : params := config ["ZZ"] WhitenAll true.

(** A window in which station B has a gap in its only channel. *)
Definition w_gap : window (list R) :=
  mkWindow [A_Z; B_Z_start; B_Z_end] [mkGap "BE" "B" "" "HHZ" (1 # 4)%Q].

(** A window in which one channel is a sample short. *)
Definition w_short : window (list R) := mkWindow [A_Z; B_Z_short] [].

(** A window with three whole channels. *)
Definition w_full : window (list R) := mkWindow [A_Z; B_N; B_Z] [].

Lemma select_gap :
  GapFilter.select_channels Runner.samples_eq_dec P_auto w_gap = Go [A_Z].
Proof.
  rewrite GapFilter.select_channels_cases by reflexivity. reflexivity.
Qed.

(** C2 fails as stated: with auto-correlation enabled, a window in which
    one channel is left after the gapped ones are dropped is not discarded,
    and the channel is paired with itself. *)
Lemma single_channel_window_kept :
  (List.length (GapFilter.survivors w_gap) < 2)%nat
  /\ ~ is_skip (GapFilter.select_channels Runner.samples_eq_dec P_auto w_gap)
  /\ GapFilter.select_channels Runner.samples_eq_dec P_auto w_gap = Go [A_Z]
  /\ Pairs.pair_index P_auto (Pairs.names [A_Z])
     = Ok [("BE.A_BE.A_ZZ", 0%nat, 0%nat)].
Proof.
  split; [simpl; lia|]. split; [rewrite select_gap; intros []|].
  split; [exact select_gap|reflexivity].
Qed.

Lemma gapped_channels_dropped_witness :
  (forall kept t,
      GapFilter.select_channels Runner.samples_eq_dec P_auto w_gap = Go kept ->
      In t kept ->
      In t (w_traces w_gap) /\ GapFilter.gappedb (w_gaps w_gap) t = false)
  /\ (GapFilter.select_channels Runner.samples_eq_dec P_auto w_gap
      = Skip NoTracesWithoutGaps
      <-> GapFilter.survivors w_gap = []).
Proof.
  exact (GapFilter.gapped_channels_dropped _ Runner.samples_eq_dec P_auto w_gap
           eq_refl).
Defined.

Lemma survivors_short : GapFilter.survivors w_short <> [].
Proof. discriminate. Qed.

Lemma window_length_check_witness :
  (forall t, In t (GapFilter.survivors w_short) ->
             (npts t <= GapFilter.common_count w_short)%nat)
  /\ (GapFilter.survivors w_short <> [] ->
      exists t, In t (GapFilter.survivors w_short)
                /\ npts t = GapFilter.common_count w_short)
  /\ (is_skip (GapFilter.select_channels Runner.samples_eq_dec P w_short)
      <-> ~ (GapFilter.lag_span P
             < inject_Z (Z.of_nat (GapFilter.common_count w_short)))%Q)
  /\ (forall kept,
        GapFilter.select_channels Runner.samples_eq_dec P w_short = Go kept ->
        kept = filter (fun t => Nat.eqb (npts t)
                                        (GapFilter.common_count w_short))
                      (GapFilter.survivors w_short)
        /\ kept <> []
        /\ (forall t, In t kept ->
              forall t', In t' (GapFilter.survivors w_short) ->
                         (npts t' <= npts t)%nat))
  /\ (forall e,
        GapFilter.select_channels Runner.samples_eq_dec P w_short <> Abort e).
Proof.
  exact (GapFilter.window_length_check _ Runner.samples_eq_dec P w_short
           eq_refl (or_introl survivors_short)).
Defined.


Lemma select_full :
  GapFilter.select_channels Runner.samples_eq_dec P w_full
  = Go [A_Z; B_N; B_Z].
Proof.
  rewrite GapFilter.select_channels_cases by reflexivity. reflexivity.
Qed.

Lemma codes_full : NoDup (map Pairs.codes [A_Z; B_N; B_Z]).
Proof.
  repeat constructor; simpl; intuition discriminate.
Qed.

(** The pairs of the full window: Z of A with N and with Z of B. *)
Example pair_index_full :
  Pairs.pair_index P (Pairs.names [A_Z; B_N; B_Z])
  = Ok [("BE.A_BE.B_ZN", 0%nat, 1%nat); ("BE.A_BE.B_ZZ", 0%nat, 2%nat)].
Proof. reflexivity. Qed.

Lemma pairs_exact_witness :
  exists idx,
    Pairs.pair_index P (Pairs.names [A_Z; B_N; B_Z]) = Ok idx
    /\ forall key i j,
         In (key, i, j) idx <->
         exists a b ka kb,
           ((i < j)%nat \/ (autocorr P = true /\ i = j))
           /\ nth_error [A_Z; B_N; B_Z] i = Some a
           /\ nth_error [A_Z; B_N; B_Z] j = Some b
           /\ Py.last_char (channel a) = Ok ka
           /\ Py.last_char (channel b) = Ok kb
           /\ In (Pairs.comp_of ka kb) (components_to_compute P)
           /\ key = Pairs.pair_key (network a) (station a) (network b)
                                   (station b) (Pairs.comp_of ka kb).
Proof.
  exact (Pairs.pairs_exact P [A_Z; B_N; B_Z] eq_refl codes_full).
Defined.

(** The percentiles of the witnesses: -49 and 49. *)
Definition percentile (samples : list R) (per : R) : R := per - 50.

Lemma band_not_empty :
  Normalizer.not_outliers percentile (data A_Z) <> [].
Proof.
  unfold Normalizer.not_outliers, percentile. simpl.
  unfold Normalizer.Rleb.
  destruct (Rle_dec (1 - 50) 1) as [_|H]; [|exfalso; apply H; lra].
  destruct (Rle_dec 1 (99 - 50)) as [_|H]; [|exfalso; apply H; lra].
  simpl. discriminate.
Qed.

Lemma three_positive : (0 < 3)%Q.
Proof. reflexivity. Qed.



(** A window with the three components of station B. *)
Definition tmp_pool : list (trace (list R)) := [A_Z; B_E; B_N; B_Z].
Definition psds_pool : list (list R) := [[1; 2]; [4; 2]; [2; 6]; [5; 5]].


(** The rows of E and N of station B are pooled, those of Z are not. *)
Example pool_rows_B :
  exists ci,
    Pooling.build_index (Pairs.names tmp_pool) = Ok ci
    /\ Pooling.pool ci psds_pool
       = [[1; 2];
          [(4 + 2) / 2; (2 + 6) / 2]; [(4 + 2) / 2; (2 + 6) / 2];
          [5; 5]].
Proof. eexists. split; reflexivity. Qed.


Lemma maxlag_P : (0 <= maxlag P)%Q.
Proof. discriminate. Qed.

Lemma rate_P : (0 < goal_sampling_rate P)%Q.
Proof. reflexivity. Qed.

(** *** A day, with stand-ins for the functions the script calls *)

Definition spectrum : Type := list R.
Definition next_fast_len (n : nat) : nat := n.
Definition keep (samples : list R) : list R := samples.
Definition psd (samples : list R) (fs : Q) (nfft : nat) : list R := samples.
Definition fftn (samples : list (list R)) (nfft : nat) : list spectrum :=
  samples.
Definition whiten2 (ffts : list spectrum) (nfft : nat) (low high : Z)
           (p1 p2 : nat) (psds : list (list R)) (policy : whitening_policy)
  : list spectrum := ffts.
Definition energy_of (ffts : list spectrum) (nfft : nat) : list R :=
  map (fun _ => 1) ffts.
Definition myCorr2 (ffts : list spectrum) (maxlag : Z) (energy : list R)
           (pair_index : list Pairs.pair_entry) (nfft : nat)
  : list (string * list R) :=
  map (fun e => (fst (fst e), [0])) pair_index.
Definition strftime (t : Q) : string := "2020-01-01".
Definition stack (p : params) (corrs : list (list R)) : list R :=
  match corrs with
  | [] => []
  | c :: _ => c
  end.

Definition one_turn : params -> list filterdb -> turn -> list event * result unit :=
  Runner.one_turn spectrum next_fast_len keep keep percentile psd fftn whiten2
                  energy_of myCorr2 strftime strftime stack.

Definition run_turns
  : params -> list filterdb -> list turn -> list event * ending :=
  Runner.run_turns spectrum next_fast_len keep keep percentile psd fftn whiten2
                   energy_of myCorr2 strftime strftime stack.

Definition main : list filterdb -> params -> list turn -> list event * ending :=
  Runner.main spectrum next_fast_len keep keep percentile psd fftn whiten2
              energy_of myCorr2 strftime strftime stack.

Definition jobs_AB : list job := [mkJob "2020-01-01" "BE.A:BE.B" 7].

(** The preprocessor found nothing for the day. *)
Definition turn_empty : turn := mkTurn jobs_AB (mkStream [] []).

(** The day holds the full window. *)
Definition turn_full : turn := mkTurn jobs_AB (mkStream [A_Z; B_N; B_Z] [w_full]).

(** A band from 2 to 6 Hz, and one from 12 to 15 Hz, above the Nyquist
    frequency of 10 Hz. *)
Definition band_low : filterdb := mkFilter 1 2%Q 6%Q.
Definition band_high : filterdb := mkFilter 2 12%Q 15%Q.



(** The preprocessor found a third of a second of data for the day: less
    than the window of 1800 s. *)
Definition turn_short : turn := mkTurn jobs_AB (mkStream [A_Z; B_N; B_Z] []).






(** What the short day leaves in the log. *)
Example short_day_log :
  one_turn P [band_low] turn_short
  = ([GetNextJob jobs_AB;
      Preprocess ["BE.A"; "BE.B"] ["N"; "Z"] "2020-01-01";
      MassiveUpdateJob jobs_AB "D";
      UpdateJob "2020-01-01" "BE.A:BE.B" "STACK" "T" None],
     Ok tt).
Proof. reflexivity. Qed.

(** What the empty day leaves in the log. *)
Example empty_day_log :
  one_turn P [band_low] turn_empty
  = ([GetNextJob jobs_AB;
      Preprocess ["BE.A"; "BE.B"] ["N"; "Z"] "2020-01-01";
      UpdateJob "2020-01-01" "BE.A:BE.B" "CC" "D" (Some 7%Z)],
     Ok tt).
Proof. reflexivity. Qed.

(** The 8-point transform at 20 Hz has the frequencies 0, 2.5, 5 and 7.5 Hz:
    rows 1 and 2 are in the band from 2 to 6 Hz. *)
Example bounds_band_low :
  Stage.bounds 100 8 (1 / 20)%Q band_low = Ok (1%Z, 1%nat, 2%nat, 4%Z).
Proof. reflexivity. Qed.

(** A day with one usable band: one daily stack per pair, the job marked
    Done and a STACK job queued. *)
Example full_day_log :
  main [band_low] P [turn_full]
  = ([GetNextJob jobs_AB;
      Preprocess ["BE.A"; "BE.B"] ["N"; "Z"] "2020-01-01";
      AddCorr "BE_A" "BE_B" 1 "2020-01-01" "ZN" [0] 1;
      AddCorr "BE_A" "BE_B" 1 "2020-01-01" "ZZ" [0] 1;
      MassiveUpdateJob jobs_AB "D";
      UpdateJob "2020-01-01" "BE.A:BE.B" "STACK" "T" None],
     Finished).
Proof.
  unfold main, Runner.main. cbn [List.length Nat.eqb].
  lazy -[Rplus Rmult Rminus Ropp Rdiv Rinv IZR sqrt Rle_dec Rlt_dec Q2R Rmin
         Rmax Rsqr Rabs INR].
  reflexivity.
Qed.

(** At 20 Hz an 8-point transform has no frequency between 0.1 and 0.5 Hz
    either. *)
Example narrow_band_empty :
  Stage.freq_sel 8 (1 / 20)%Q (1 # 10)%Q (1 # 2)%Q = [].
Proof. reflexivity. Qed.

Lemma band_high_above : (goal_sampling_rate P / 2 <= filter_low band_high)%Q.
Proof. discriminate. Qed.

Lemma rate_not_zero : ~ (goal_sampling_rate P == 0)%Q.
Proof. discriminate. Qed.

(** No transform of a signal at 20 Hz has a frequency in the high band. *)
Lemma band_high_empty (nfft : nat) :
  Stage.freq_sel nfft (1 / goal_sampling_rate P)%Q
                 (filter_low band_high) (filter_high band_high) = [].
Proof.
  apply Stage.freq_sel_above_nyquist; [exact rate_P|exact band_high_above].
Qed.

Lemma jobs_claimed : claimed turn_full <> [].
Proof. discriminate. Qed.

Lemma stream_full : st_traces (bundle turn_full) <> [].
Proof. discriminate. Qed.

Lemma unusable_band_aborts_witness :
  main [band_high; band_low] P [turn_full]
  = ([GetNextJob jobs_AB;
      Preprocess (Py.unique ["BE.A"; "BE.B"]) (Py.unique ["Z"; "Z"; "Z"; "N"])
                 (Runner.goal_day_of jobs_AB)],
     Uncaught IndexError).
Proof.
  exact (Runner.unusable_band_aborts spectrum next_fast_len keep keep
           percentile psd fftn whiten2 energy_of myCorr2 strftime strftime
           stack P band_high [band_low] turn_full [] w_full [] A_Z
           [A_Z; B_N; B_Z] ["BE.A"; "BE.B"] ["Z"; "Z"; "Z"; "N"]
           jobs_claimed eq_refl eq_refl stream_full eq_refl select_full
           eq_refl eq_refl codes_full rate_not_zero (band_high_empty _)).
Defined.

(** Whitening that zeroes a spectrum, for the witness below. *)
Definition zeroed (i : nat) (x : spectrum) : spectrum := [].

Lemma zeroed_changes : zeroed 0 (data A_Z) <> data A_Z.
Proof. discriminate. Qed.

(** Z of station A is in a Z-N pair and in a Z-Z pair: no batch of spectra
    follows the policy "only if the components differ" for both. *)
Lemma whitening_not_per_pair_witness :
  ~ Runner.per_pair_policy spectrum zeroed (whitening P)
      ["Z"; "N"; "Z"]%char
      (fftn [data A_Z; data B_N; data B_Z] 8)
      (Runner.whitened spectrum fftn whiten2 P 8
         [data A_Z; data B_N; data B_Z] [[1]; [1]; [1]]
         (1%Z, 1%nat, 2%nat, 4%Z))
      [("BE.A_BE.B_ZN", 0%nat, 1%nat); ("BE.A_BE.B_ZZ", 0%nat, 2%nat)].
Proof.
  apply (Runner.whitening_not_per_pair spectrum fftn whiten2 P 8
           [data A_Z; data B_N; data B_Z] [[1]; [1]; [1]]
           (1%Z, 1%nat, 2%nat, 4%Z) zeroed ["Z"; "N"; "Z"]%char
           [("BE.A_BE.B_ZN", 0%nat, 1%nat); ("BE.A_BE.B_ZZ", 0%nat, 2%nat)]
           "BE.A_BE.B_ZN" "BE.A_BE.B_ZZ" 0%nat 1%nat 2%nat
           "Z"%char "N"%char "Z"%char (data A_Z) (data B_N) (data B_Z)).
  - left. reflexivity.
  - right. left. reflexivity.
  - reflexivity.
  - reflexivity.
  - reflexivity.
  - reflexivity.
  - reflexivity.
  - reflexivity.
  - reflexivity.
  - reflexivity.
  - exact zeroed_changes.
Defined.


Lemma kept_channels_same_count_witness :
  exists base,
    (GapFilter.lag_span P < inject_Z (Z.of_nat base))%Q
    /\ forall t, In t [A_Z; B_N; B_Z] -> npts t = base.
Proof.
  exact (GapFilter.kept_channels_same_count _ Runner.samples_eq_dec P w_full
           [A_Z; B_N; B_Z] select_full).
Defined.

(** A window too short for the lag span: 4 samples against a span of 5. *)
Definition w_tiny : window (list R) :=
  mkWindow [tr "A" "HHZ" [1; 2; -1; 0]; tr "B" "HHZ" [2; 0; -1; 1]] [].

Lemma select_tiny :
  GapFilter.select_channels Runner.samples_eq_dec P w_tiny = Skip TooShort.
Proof.
  rewrite GapFilter.select_channels_cases by reflexivity. reflexivity.
Qed.

Lemma tiny_not_empty : w_traces w_tiny <> [].
Proof. discriminate. Qed.

Lemma tiny_skipped :
  is_skip (GapFilter.select_channels Runner.samples_eq_dec P w_tiny).
Proof. rewrite select_tiny. exact I. Qed.

Lemma skipped_window_adds_nothing_witness :
  Runner.process_window spectrum next_fast_len keep keep percentile psd fftn
    whiten2 energy_of myCorr2 strftime strftime P [band_low] (1 / 20)%Q
    w_tiny []
  = Ok [].
Proof.
  exact (Runner.skipped_window_adds_nothing spectrum next_fast_len keep keep
           percentile psd fftn whiten2 energy_of myCorr2 strftime strftime
           P [band_low] (1 / 20)%Q w_tiny [] tiny_not_empty tiny_skipped).
Defined.


(** *** The bounds of the low band *)

Lemma napod_not_negative : (0 <= 100)%Z.
Proof. discriminate. Qed.

Lemma spacing_positive : (0 < 1 / 20)%Q.
Proof. reflexivity. Qed.

Lemma bounds_in_range_witness :
  (1 <= 2)%nat /\ (2 < 8 / 2)%nat
  /\ (1 <= 1)%Z /\ (1 <= Z.max 1 (Z.of_nat 1))%Z
  /\ (Z.of_nat 2 <= 4)%Z /\ (4 <= Z.of_nat (8 / 2))%Z
  /\ (filter_low band_low <= Stage.freq_at 8 (1 / 20) 1
      <= filter_high band_low)%Q
  /\ (filter_low band_low <= Stage.freq_at 8 (1 / 20) 2
      <= filter_high band_low)%Q.
Proof.
  exact (Stage.bounds_in_range 100 8 (1 / 20)%Q band_low 1 4 1 2
           napod_not_negative bounds_band_low).
Defined.

Lemma bounds_delimit_band_witness :
  (1 <= 2 <= 2)%nat
  <-> (2 < 8 / 2)%nat
      /\ (filter_low band_low <= Stage.freq_at 8 (1 / 20) 2
          <= filter_high band_low)%Q.
Proof.
  exact (Stage.bounds_delimit_band 100 8 (1 / 20)%Q band_low 1 4 1 2 2
           spacing_positive bounds_band_low).
Defined.

(** *** What the full day accumulates and stacks *)

Definition allcorr_full : allcorr_t :=
  [("BE.A_BE.B_ZN_01_2020-01-01", [("2020-01-01", [0])]);
   ("BE.A_BE.B_ZZ_01_2020-01-01", [("2020-01-01", [0])])].

Lemma windows_full :
  for_each [w_full]
    (Runner.process_window spectrum next_fast_len keep keep percentile psd
       fftn whiten2 energy_of myCorr2 strftime strftime P [band_low]
       (1 / 20)%Q)
    []
  = Ok allcorr_full.
Proof.
  lazy -[Rplus Rmult Rminus Ropp Rdiv Rinv IZR sqrt Rle_dec Rlt_dec Q2R Rmin
         Rmax Rsqr Rabs INR].
  reflexivity.
Qed.

Lemma accumulated_not_empty_witness :
  NoDup (map fst allcorr_full)
  /\ forall ccfid inner,
       In (ccfid, inner) allcorr_full ->
       NoDup (map fst inner)
       /\ Nat.eqb (List.length (map snd inner)) 0 = false.
Proof.
  exact (Runner.accumulated_not_empty spectrum next_fast_len keep keep
           percentile psd fftn whiten2 energy_of myCorr2 strftime strftime
           P [band_low] (1 / 20)%Q [w_full] allcorr_full windows_full).
Defined.

Lemma stack_one_decodes_witness :
  Runner.stack_one stack P "2020-01-01"
    (Stage.ccfid_of
       (Pairs.pair_key "BE" "A" "BE" "B" (Pairs.comp_of "Z" "N")) 1
       "2020-01-01",
     [("2020-01-01 00:00:00", [0])])
  = ([AddCorr "BE_A" "BE_B" 1 "2020-01-01" "ZN" [0] 1], Ok tt).
Proof.
  apply (Runner.stack_one_decodes stack P "2020-01-01" "BE" "A" "BE" "B"
           "2020-01-01" "Z" "N" 1 [("2020-01-01 00:00:00", [0])]);
    try reflexivity; discriminate.
Defined.

(** A station code with an underscore in it: the id holds five. *)
Lemma stack_one_bad_id_witness :
  Runner.stack_one stack P "2020-01-01"
    ("BE.ST_1_BE.B_ZZ_01_2020-01-01", [("2020-01-01 00:00:00", [0])])
  = ([], Raise ValueError).
Proof.
  apply Runner.stack_one_bad_id. simpl. discriminate.
Defined.

(** *** How the two days end *)

Definition log_full : list event :=
  [GetNextJob jobs_AB;
   Preprocess ["BE.A"; "BE.B"] ["N"; "Z"] "2020-01-01";
   AddCorr "BE_A" "BE_B" 1 "2020-01-01" "ZN" [0] 1;
   AddCorr "BE_A" "BE_B" 1 "2020-01-01" "ZZ" [0] 1;
   MassiveUpdateJob jobs_AB "D";
   UpdateJob "2020-01-01" "BE.A:BE.B" "STACK" "T" None].

Lemma finished_run_marks_all_witness :
  Runner.marked_done (mkJob "2020-01-01" "BE.A:BE.B" 7) log_full.
Proof.
  exact (Runner.finished_run_marks_all spectrum next_fast_len keep keep
           percentile psd fftn whiten2 energy_of myCorr2 strftime strftime
           stack [band_low] P [turn_full] log_full turn_full
           (mkJob "2020-01-01" "BE.A:BE.B" 7) full_day_log
           (or_introl eq_refl) (or_introl eq_refl)).
Defined.

Definition log_high : list event :=
  [GetNextJob jobs_AB; Preprocess ["BE.A"; "BE.B"] ["N"; "Z"] "2020-01-01"].

(** With the band above the Nyquist frequency first, the day ends at its
    first window. *)
Lemma high_band_log :
  main [band_high; band_low] P [turn_full] = (log_high, Uncaught IndexError).
Proof.
  unfold main, Runner.main. cbn [List.length Nat.eqb].
  lazy -[Rplus Rmult Rminus Ropp Rdiv Rinv IZR sqrt Rle_dec Rlt_dec Q2R Rmin
         Rmax Rsqr Rabs INR].
  reflexivity.
Qed.

Lemma uncaught_leaves_jobs_in_progress_witness :
  exists pre t rest evs_pre evs_t,
    [turn_full] = pre ++ t :: rest
    /\ run_turns P [band_high; band_low] pre = (evs_pre, Finished)
    /\ one_turn P [band_high; band_low] t = (evs_t, Raise IndexError)
    /\ log_high = evs_pre ++ evs_t
    /\ hd_error evs_t = Some (GetNextJob (claimed t))
    /\ forall ev, In ev evs_t -> Runner.is_update ev = false.
Proof.
  exact (Runner.uncaught_leaves_jobs_in_progress spectrum next_fast_len keep
           keep percentile psd fftn whiten2 energy_of myCorr2 strftime
           strftime stack [band_high; band_low] P [turn_full] log_high
           IndexError high_band_log).
Defined.

(** *** Stations and components *)

Lemma needed_comps_horizontals_witness :
  (forall c, In c ["E"; "N"; "Z"; "Z"]%string -> c <> "R"%string /\ c <> "T"%string)
  /\ (forall comp k,
        In comp ["ZR"; "ZZ"]%string ->
        Py.char_at 0 comp = Ok k \/ Py.char_at 1 comp = Ok k ->
        Runner.is_RT k = true ->
        In "E"%string ["E"; "N"; "Z"; "Z"]%string
        /\ In "N"%string ["E"; "N"; "Z"; "Z"]%string).
Proof.
  exact (Runner.needed_comps_horizontals ["ZR"; "ZZ"]%string
           ["E"; "N"; "Z"; "Z"]%string eq_refl).
Defined.

Lemma split_jobs_one_colon_witness :
  ((forall j, In j jobs_AB -> Stage.count_char ":" (job_pair j) = 1%nat) ->
   exists stations,
     Runner.split_jobs jobs_AB = Ok stations
     /\ List.length stations = (2 * List.length jobs_AB)%nat)
  /\ ((exists j, In j jobs_AB /\ Stage.count_char ":" (job_pair j) <> 1%nat) ->
      Runner.split_jobs jobs_AB = Raise ValueError).
Proof.
  exact (Runner.split_jobs_one_colon jobs_AB).
Defined.

Lemma pair_index_rows_in_range_witness :
  (0 < List.length (Pairs.names [A_Z; B_N; B_Z]))%nat
  /\ (1 < List.length (Pairs.names [A_Z; B_N; B_Z]))%nat
  /\ exists a b,
       In (a, b) (Pairs.iterfunc P (Pairs.names [A_Z; B_N; B_Z]))
       /\ nth_error (Pairs.names [A_Z; B_N; B_Z]) 0 = Some a
       /\ nth_error (Pairs.names [A_Z; B_N; B_Z]) 1 = Some b.
Proof.
  exact (Pairs.pair_index_rows_in_range P (Pairs.names [A_Z; B_N; B_Z])
           [("BE.A_BE.B_ZN", 0%nat, 1%nat); ("BE.A_BE.B_ZZ", 0%nat, 2%nat)]
           "BE.A_BE.B_ZN" 0 1 pair_index_full (or_introl eq_refl)).
Defined.

(** *** Windsorizing the first channel *)

Lemma minus_two_negative : (-2 # 1 < 0)%Q.
Proof. reflexivity. Qed.

Lemma minus_two_not_sign : ~ (-2 # 1 == -1)%Q.
Proof. discriminate. Qed.

Lemma negative_windsorizing_flattens_witness :
  Normalizer.windsorize percentile (-2 # 1) (data A_Z)
  = map (fun _ => Normalizer.clip_level percentile (-2 # 1) (data A_Z))
        (data A_Z)
  /\ Normalizer.clip_level percentile (-2 # 1) (data A_Z) <= 0.
Proof.
  exact (Normalizer.negative_windsorizing_flattens percentile (-2 # 1)
           (data A_Z) minus_two_negative minus_two_not_sign band_not_empty).
Defined.

Lemma windsorizing_keeps_inliers_witness :
  nth_error (Normalizer.windsorize percentile 3 (data A_Z)) 0
  = Some (if Rle_dec (Rabs 1) (Normalizer.clip_level percentile 3 (data A_Z))
          then 1
          else Normalizer.sign 1 * Normalizer.clip_level percentile 3 (data A_Z)).
Proof.
  exact (Normalizer.windsorizing_keeps_inliers percentile 3 (data A_Z) 0 1
           three_positive band_not_empty eq_refl).
Defined.


(** *** A station with N and Z only *)

Lemma no_east_B :
  forall b, In b [A_Z; B_N; B_Z] ->
            Pooling.station_component b <> Ok ("BE.B"%string, Pooling.letter_E).
Proof.
  intros b [<-|[<-|[<-|[]]]]; discriminate.
Qed.

Lemma lone_horizontal_kept_witness :
  exists ci,
    Pooling.build_index (Pairs.names [A_Z; B_N; B_Z]) = Ok ci
    /\ nth 1 (Pooling.pool ci [[1; 2]; [4; 2]; [5; 5]]) []
       = nth 1 [[1; 2]; [4; 2]; [5; 5]] [].
Proof.
  exact (Pooling.lone_horizontal_kept [A_Z; B_N; B_Z]
           [[1; 2]; [4; 2]; [5; 5]] 1 B_N "BE.B" "N" Pooling.letter_E
           eq_refl eq_refl eq_refl (or_introl eq_refl) no_east_B).
Defined.


(** *** The length of the correlations of the full day *)

(** A stand-in for [myCorr2] that returns the segments of lags the spec
    describes, with every value 0. *)
Definition myCorr2_lags (ffts : list spectrum) (maxlag : Z) (energy : list R)
           (pair_index : list Pairs.pair_entry) (nfft : nat)
  : list (string * list R) :=
  map (fun e => (fst (fst e),
                 Correlation.myCorr2_segment (fun _ => 0) maxlag nfft))
      pair_index.

Lemma lags_are_segments : Runner.myCorr2_segments spectrum myCorr2_lags.
Proof.
  intros ffts m energy idx nfft key c Hin. unfold myCorr2_lags in Hin.
  apply in_map_iff in Hin. destruct Hin as (e & He & _).
  inversion He; subst. exists (fun _ => 0). reflexivity.
Qed.

Lemma fast_len_covers : forall n, (n <= next_fast_len n)%nat.
Proof. intro n. apply Nat.le_refl. Qed.

(** The lag of 0.1 s at 20 Hz is 2 samples: 5 values per correlation. *)
Definition allcorr_lags : allcorr_t :=
  [("BE.A_BE.B_ZN_01_2020-01-01", [("2020-01-01", [0; 0; 0; 0; 0])]);
   ("BE.A_BE.B_ZZ_01_2020-01-01", [("2020-01-01", [0; 0; 0; 0; 0])])].

Lemma windows_lags :
  for_each [w_full]
    (Runner.process_window spectrum next_fast_len keep keep percentile psd
       fftn whiten2 energy_of myCorr2_lags strftime strftime P [band_low]
       (1 / goal_sampling_rate P)%Q)
    []
  = Ok allcorr_lags.
Proof.
  lazy -[Rplus Rmult Rminus Ropp Rdiv Rinv IZR sqrt Rle_dec Rlt_dec Q2R Rmin
         Rmax Rsqr Rabs INR].
  reflexivity.
Qed.

Lemma pair_correlation_length_witness :
  Z.of_nat (List.length [0; 0; 0; 0; 0])
  = (2 * Qceiling (maxlag P / (1 / goal_sampling_rate P)) + 1)%Z.
Proof.
  exact (Runner.pair_correlation_length spectrum next_fast_len keep keep
           percentile psd fftn whiten2 energy_of myCorr2_lags strftime
           strftime P [band_low] [w_full] allcorr_lags
           "BE.A_BE.B_ZN_01_2020-01-01" "2020-01-01"
           [("2020-01-01"%string, [0; 0; 0; 0; 0])] [0; 0; 0; 0; 0]
           lags_are_segments fast_len_covers maxlag_P rate_P windows_lags
           (or_introl eq_refl) (or_introl eq_refl)).
Defined.


End Scenarios.
